(* ===== verification/_CoqProject ===== *)
-Q . S2P
Prelude.v
JsMap.v
Browser.v
Timer.v
Scheduler.v
Registry.v
JsValue.v
Env.v
Http.v
Dto.v
Api.v
Router.v
Main.v
