(* ===== verification/Prelude.v ===== *)
(** * solo-panel: a verification development of the polling scheduler, the
      HTTP failure-normalisation layer, the REST wrappers and their types

    The repository is a Vue/TypeScript dashboard ([src/src]) for a job-flow
    engine and a restic backup engine.  Its parts:

    - [store/timer.ts]: the Pinia store [useGlobalTimerStore].  It keeps
      named periodic jobs in a [Map] and runs them all from one
      [window.setInterval] timer.  The timer starts when the subscriber
      counter goes from 0 to 1 and stops when the counter falls back to 0.
      [registerJob] also calls the job once at once.  The store returns
      [registerJob], [unregisterJob] and the [intervalMs] ref.
    - [utils/http.ts]: two axios instances.  The REST instance carries the
      response interceptor [globalErrorResponseInterceptor]; the blob
      instance has none.
    - [api/jobflow/api.ts], [api/snapshot/api.ts]: one-request wrappers
      returning [response.data.data]; [type.ts] declares their payloads.
    - [router/index.ts]: a four-route table.
    - [main.ts]: creates the app, installs Pinia, the router and Naive UI,
      and mounts it.

    The views (not in the sources) register polling jobs whose bodies call
    the API wrappers; every wrapper call goes through axios and, on the REST
    instance, through the interceptor.

    ** Files, in dependency order

    - [Prelude]: this header, the [solo] hint and rewrite databases, the
      [solo_ztests] tactic, and the shared list/integer lemmas.
    - [JsMap] (Module [JsMap]): the ECMAScript [Map] as an insertion-ordered
      association list ([get], [set], [delete], [values]), the key-uniqueness
      invariant [wf], and the refinement [to_gmap] to a stdpp [gmap].
    - [Browser] (Module [Browser]): the environment the store calls: the
      interval table of [setInterval]/[clearInterval] (handle, delay, next
      due time), the clock and the console events.  Browser services, not
      mapped to sources.
    - [Timer] (Module [Timer]): [timer.ts].
      + State: [Store] (the fields [intervalMs], [timerId], [jobs],
        [subscribers]) inside a [World] that adds the [Browser.Window] and
        the observable [trace] (job calls, console and uncaught-error
        reports).
      + One definition per function, in the code's order of effects:
        [startTimer], [stopTimer], [addSubscriber], [removeSubscriber],
        [registerJob], [unregisterJob], and the interval callback [tick]
        with its loop [run_jobs].
      + A job's function is abstract.  The class [JobBehaviour] is the
        interface the store relies on: a call returns, returns a promise
        (never awaited), or throws synchronously.
      + The invariant [inv] and the claims on each operation.
    - [Scheduler] (Module [Scheduler]): the event loop.
      + [op] is what callers can do with the returned store:
        [registerJob], [unregisterJob], a write to the [intervalMs] ref
        ([write_intervalMs]); and elapsed time.
      + [run_until] fires due intervals in due-time order (each firing
        reschedules the interval and runs [tick]).
      + [reachable] is the set of states reachable from [init].
      + [count_after] is the spec's clamped net registration count;
        [ticks] and [tick_events] count what a stretch of time brings.
    - [Registry] (Module [Registry]): the abstract contract (a gmap of jobs,
      a count, [running]), the abstraction function [abs], and the
      refinement theorems.
    - [JsValue] (Module [JsValue]): the JavaScript values the code inspects:
      [truthy], [to_string], [get_prop] (with the [TypeError] of reading a
      property of null/undefined), [includes], [decimal].
    - [Env] (Module [Env]): line 11 of [timer.ts]: [Number()] on the
      environment string (ECMAScript's StringToNumber: trimming, integer
      literals, the other numeric literal forms, NaN) and the startup
      interval [startup_intervalMs].
    - [Http] (Module [Http]): [http.ts].
      + The data: [response], [axios_error], [error_cause], [enhanced_error].
      + The two instances and the interceptor, branch by branch.
      + [rest_request] (with interceptor) and [blob_request] (without).
      + [dispatch] is axios's own behaviour (timeout, [validateStatus], the
        error code of [settle]), modelled from the axios sources.
    - [Dto] (Module [Dto]): every interface of the two [type.ts] files as a
      record, and the JSON value axios sends for each request payload.
      [fieldSchemaMap] keeps its two possible run-time values, a [Map]
      (written as [{}]) or a plain object.
    - [Api] (Module [Api]): the 13 wrappers over a [backend] parameter.
      Their failures are [api_error]: normalised, [TypeError], or a raw
      axios error on the blob instance.
    - [Router] (Module [Router]): the route table and vue-router's default
      static matching (ASCII case-insensitive, optional trailing slash)
      with redirects.
    - [Main] (Module [Main]): [main.ts] over a model of Vue's [createApp],
      [use] and [mount].

    ** What the theorems show

    - Scheduler invariants (C1, C2).  In every reachable state:
      + the counter is non-negative;
      + [timerId] is set exactly when the counter is positive;
      + exactly that one interval is live;
      + job ids are unique.
      Over any call sequence the counter is the clamped net count.
    - Store operations (C3-C7, C10, C11):
      + [registerJob] calls the job exactly once at once, even when it
        throws, and always counts it;
      + [unregisterJob] floors the counter at 0;
      + a tick calls every job in insertion order when none throws (C5);
      + a synchronous throw skips the later jobs of that tick (C6, bug);
      + unregistering an unknown id stops the timer under a still
        registered job (C7, bug);
      + re-registration replaces the job but counts twice (C10, C11).
    - Time (C8, C9): with the timer running and no job throwing, one
      period of time calls every job (liveness); a stretch of time brings
      exactly [(t - due) / period + 1] identical ticks.
    - Refinement (C12, C13): [registerJob] and [unregisterJob] implement the
      abstract registry on the whole job map.
    - The interval (C14-C17): a write to [intervalMs] reaches only the next
      timer; [|| 15000] keeps negative values; a configured integer is read
      back exactly; an unset, blank or non-numeric value gives 15000 ms.
    - Interceptor (C18-C24):
      + each branch's message and status, the timeout test by its two
        disjuncts;
      + the uniform shape of the cause;
      + timeout is distinguished from connectivity end to end;
      + the message is non-empty except for an array-valued body message
        (with the counterexample [interceptor_empty_message_array]).
    - Wrappers (C25, C26): the outcomes of the data-returning wrappers
      (the result is the body's [data], unchecked; a raw [TypeError] on a
      null body) and the un-normalised errors of [getDownloadResult].

    ** Bounds and fuel

    - [Scheduler.run_until] takes fuel.  [Scheduler.measure t w] sums, over
      the live intervals, how many milliseconds each is due at or before
      [t].  Every firing lowers the measure by at least one, because a
      delay below 1 ms is clamped to 1 ms ([Browser.effective_delay]).  So
      [measure] fuel always suffices ([run_until_Some]), and
      [Scheduler.exec] uses exactly that.
    - [Router.resolve] follows at most one redirect per route of the table.
    - Counters and statuses are unbounded [Z]: JavaScript numbers are exact
      at these magnitudes.  Elapsed time is clamped at 0.
    - [Env.Number_of_string] is exact on integers, blanks and non-numeric
      strings; for fractions, exponents, [Infinity] and the [0x]/[0o]/[0b]
      forms it returns [None] (their value is outside the integer model).

    ** Not modelled

    - The views ([FlowFormData] and [GroupData] are modelled as records
      only: no code of the sources builds them).
    - Re-entrant calls of the store from inside a job (the tick iterates a
      snapshot of [jobs.values()]).
    - The browser's report of an unhandled promise rejection: a job whose
      promise rejects leaves only its call in the trace.
    - The error object passed to [console.error] in [registerJob] (the log
      event records the message only).
    - Non-integer numbers (fractions, [-0], [Infinity]) in configuration
      and payloads.
    - Axios, Vue, vue-router and the browser themselves, beyond the
      environment models in [Http.dispatch], [Main], [Router.resolve] and
      [Browser].
    - Type checking of the project: [snapshot/api.ts] and [http.ts] import
      a [FlowResponse.ts] that is not in the repository (type-only imports,
      erased at build time).  The declared types are erased, so no theorem
      is stated about them beyond the wrappers' unchecked results.

    ** Plan for the next sittings

    - Promise settlement of asynchronous jobs as later events, to state the
      overlap of a slow job with the next tick and the unhandled-rejection
      report. *)

From Stdlib Require Import ZArith Lia.
From stdpp Require Import base list.

Declare Scope solo_scope.
Delimit Scope solo_scope with solo.

(** The hint database of the development: rewriting lemmas for record
    projections of updated states and for the small list facts below. *)
Create HintDb solo.
Create Rewrite HintDb solo.

(** ** Generic lemmas on lists *)

Section ListFacts.
Context {A : Type}.

Lemma length_filter_app (P : A -> Prop) `{!forall x, Decision (P x)} (l1 l2 : list A) :
  length (filter P (l1 ++ l2)) = length (filter P l1) + length (filter P l2).
Proof. by rewrite filter_app, length_app. Qed.

Lemma Forall_filter_sub (P Q : A -> Prop) `{!forall x, Decision (Q x)} (l : list A) :
  Forall P l -> Forall P (filter Q l).
Proof. rewrite !Forall_forall. intros HP x [_ Hx]%list_elem_of_filter. by apply HP. Qed.
End ListFacts.

#[export] Hint Rewrite @length_filter_app : solo.

(** ** Generic lemmas on integers *)

(** The decrement-then-clamp of a counter, as written in the sources
    ([x--; if (x <= 0) x = 0]), is [Z.max 0 (x - 1)]. *)
Lemma clamp_decrement (x : Z) :
  (if (x - 1 <=? 0)%Z then 0%Z else (x - 1)%Z) = Z.max 0 (x - 1).
Proof. destruct (Z.leb_spec (x - 1) 0); lia. Qed.

(** Case analysis on the integer tests that guard the code's branches. *)
Ltac solo_ztests :=
  repeat match goal with
  | |- context [(?a =? ?b)%Z] => destruct (Z.eqb_spec a b)
  | |- context [(?a <=? ?b)%Z] => destruct (Z.leb_spec a b)
  | |- context [(?a <? ?b)%Z] => destruct (Z.ltb_spec a b)
  end.
