(* ===== verification/JsMap.v ===== *)
(** * JsMap: the ECMAScript [Map] used by the timer store

    [timer.ts] keeps its jobs in [const jobs = new Map<string, TimerJob>()]
    and uses [jobs.set], [jobs.delete] and [jobs.values()].  An ECMAScript
    [Map] is an insertion-ordered list of entries: [set] on a present key
    overwrites the value in place (the entry keeps its position), [set] on an
    absent key appends, [delete] removes the entry, and [values()] iterates
    the values in entry order.  The order matters for this program: the
    interval callback stops at the first job that throws, so which jobs run
    depends on the iteration order.

    This file models [Map] as an association list and proves its laws, the
    preservation of key uniqueness ([wf]) and the refinement to a stdpp
    [gmap] ([to_gmap]) that the abstract scheduler specification uses. *)

From Stdlib Require Import ZArith Lia.
From stdpp Require Import base list gmap.
From S2P Require Import Prelude.

Module JsMap.

Section Ops.
Context {K V : Type} `{EqDecision K}.

(** A map is its list of entries, in insertion order. *)
Definition t : Type := list (K * V).

Definition empty : t := [].

(** [Map.prototype.get] *)
Fixpoint get (k : K) (m : t) : option V :=
  match m with
  | [] => None
  | (k', v) :: m' => if decide (k = k') then Some v else get k m'
  end.

(** [Map.prototype.set]: overwrite in place, or append. *)
Fixpoint set (k : K) (v : V) (m : t) : t :=
  match m with
  | [] => [(k, v)]
  | (k', v') :: m' =>
      if decide (k = k') then (k, v) :: m' else (k', v') :: set k v m'
  end.

(** [Map.prototype.delete] (its boolean result is discarded by the code). *)
Fixpoint delete (k : K) (m : t) : t :=
  match m with
  | [] => []
  | (k', v') :: m' => if decide (k = k') then m' else (k', v') :: delete k m'
  end.

Definition keys (m : t) : list K := map fst m.

(** [Map.prototype.values], as the list the iterator yields. *)
Definition values (m : t) : list V := map snd m.

(** Every map built by [set] and [delete] has pairwise distinct keys. *)
Definition wf (m : t) : Prop := NoDup (keys m).
End Ops.

Section Laws.
Context {K V : Type} `{EqDecision K}.
Implicit Types (m : @t K V) (k : K) (v : V).

Lemma get_set_eq m k v : get k (set k v m) = Some v.
Proof.
  induction m as [|[k' v'] m IH]; simpl; [by rewrite decide_True|].
  case_decide; simpl; [by rewrite decide_True|]. by rewrite decide_False.
Qed.

Lemma get_set_ne m k k' v : k <> k' -> get k' (set k v m) = get k' m.
Proof.
  intros Hne. induction m as [|[k0 v0] m IH]; simpl.
  - by rewrite decide_False.
  - case_decide; subst; simpl.
    + by rewrite !decide_False.
    + case_decide; [done|]. exact IH.
Qed.

Lemma get_delete_ne m k k' : k <> k' -> get k' (delete k m) = get k' m.
Proof.
  intros Hne. induction m as [|[k0 v0] m IH]; simpl; [done|].
  case_decide; subst; simpl.
  - by rewrite decide_False.
  - case_decide; [done|]. exact IH.
Qed.

Lemma get_None_not_in m k : get k m = None <-> k ∉ keys m.
Proof.
  induction m as [|[k0 v0] m IH]; simpl.
  - split; [intros _; apply not_elem_of_nil|done].
  - rewrite elem_of_cons. case_decide; subst; [naive_solver|].
    rewrite IH. naive_solver.
Qed.

Lemma get_delete_eq m k : wf m -> get k (delete k m) = None.
Proof.
  unfold wf, keys. induction m as [|[k0 v0] m IH]; simpl; intros Hnd; [done|].
  apply NoDup_cons in Hnd as [Hnin Hnd].
  case_decide; subst.
  - by apply get_None_not_in.
  - simpl. rewrite decide_False by done. auto.
Qed.

(** [set] keeps the key list when the key is present, appends otherwise. *)
Lemma keys_set_in m k v : k ∈ keys m -> keys (set k v m) = keys m.
Proof.
  induction m as [|[k0 v0] m IH]; simpl; [by intros ?%not_elem_of_nil|].
  rewrite elem_of_cons. intros Hin.
  case_decide; subst; simpl; [done|].
  f_equal. apply IH. naive_solver.
Qed.

Lemma keys_set_notin m k v : k ∉ keys m -> keys (set k v m) = keys m ++ [k].
Proof.
  induction m as [|[k0 v0] m IH]; simpl; [done|].
  rewrite elem_of_cons. intros Hnin.
  rewrite decide_False by naive_solver. simpl. f_equal. apply IH. naive_solver.
Qed.

Lemma keys_delete_sub m k x : x ∈ keys (delete k m) -> x ∈ keys m.
Proof.
  induction m as [|[k0 v0] m IH]; simpl; [done|].
  case_decide; subst; simpl; rewrite !elem_of_cons; naive_solver.
Qed.

Lemma set_wf m k v : wf m -> wf (set k v m).
Proof.
  unfold wf. intros Hnd. destruct (decide (k ∈ keys m)) as [Hin|Hnin].
  - by rewrite keys_set_in.
  - rewrite keys_set_notin by done. apply NoDup_app. split; [done|].
    split; [set_solver|]. apply NoDup_singleton.
Qed.

Lemma delete_wf m k : wf m -> wf (delete k m).
Proof.
  unfold wf. induction m as [|[k0 v0] m IH]; simpl; intros Hnd; [done|].
  apply NoDup_cons in Hnd as [Hnin Hnd].
  case_decide; [done|]. simpl. apply NoDup_cons. split; [|auto].
  intros Hin%keys_delete_sub. done.
Qed.

Lemma empty_wf : wf (@empty K V).
Proof. apply NoDup_nil_2. Qed.

(** The number of entries after [set]: unchanged for a present key, one
    more for a new key. *)
Lemma length_set m k v :
  length (set k v m) = if decide (k ∈ keys m) then length m else S (length m).
Proof.
  rewrite <- (length_map fst (set k v m)), <- (length_map fst m).
  fold (keys (set k v m)) (keys m).
  case_decide.
  - by rewrite keys_set_in.
  - rewrite keys_set_notin by done. rewrite length_app. simpl. lia.
Qed.

(** [values] after [set] on a present key: the value is replaced at the
    position of the old one. *)
Lemma values_set_in m k v v0 l1 l2 :
  m = l1 ++ (k, v0) :: l2 -> k ∉ keys l1 ->
  values (set k v m) = values l1 ++ v :: values l2.
Proof.
  intros -> Hnin. induction l1 as [|[k1 v1] l1 IH]; simpl.
  - by rewrite decide_True.
  - simpl in Hnin. rewrite elem_of_cons in Hnin.
    rewrite decide_False by naive_solver. simpl. f_equal. apply IH. naive_solver.
Qed.

(** [values] after [set] on an absent key: the value comes last. *)
Lemma values_set_notin m k v :
  k ∉ keys m -> values (set k v m) = values m ++ [v].
Proof.
  induction m as [|[k0 v0] m IH]; simpl; [done|].
  rewrite elem_of_cons. intros Hnin.
  rewrite decide_False by naive_solver. simpl. f_equal. apply IH. naive_solver.
Qed.
(** A property of every entry survives [set] of an entry that has it,
    and [delete]. *)
Lemma Forall_set (P : K * V -> Prop) m k v :
  Forall P m -> P (k, v) -> Forall P (set k v m).
Proof.
  intros Hall Hkv. induction Hall as [|[k0 v0] m H0 Hall IH]; simpl; [by constructor|].
  case_decide; constructor; auto.
Qed.

Lemma Forall_delete (P : K * V -> Prop) m k : Forall P m -> Forall P (delete k m).
Proof.
  intros Hall. induction Hall as [|[k0 v0] m H0 Hall IH]; simpl; [constructor|].
  case_decide; [done|]. by constructor.
Qed.

(** In a map with distinct keys, [get] finds every entry. *)
Lemma get_elem_of m k v : wf m -> (k, v) ∈ m -> get k m = Some v.
Proof.
  unfold wf, keys. induction m as [|[k0 v0] m IH]; simpl; intros Hnd Hin.
  - by apply not_elem_of_nil in Hin.
  - apply NoDup_cons in Hnd as [Hnin Hnd]. apply elem_of_cons in Hin as [Heq|Hin].
    + simplify_eq. by rewrite decide_True.
    + case_decide; subst; [|by apply IH].
      exfalso. apply Hnin. apply list_elem_of_In, in_map_iff. exists (k0, v).
      split; [done|]. by apply list_elem_of_In.
Qed.

Lemma elem_of_values m v : v ∈ values m -> exists k, (k, v) ∈ m.
Proof.
  unfold values. rewrite !list_elem_of_In, in_map_iff.
  intros [[k v'] [Hv Hin]]. simpl in Hv. subst. exists k. by apply list_elem_of_In.
Qed.
End Laws.

#[export] Hint Resolve set_wf delete_wf empty_wf : solo.
#[export] Hint Rewrite @get_set_eq : solo.

(** ** Refinement to a stdpp [gmap]

    The abstract view of a map forgets the order: [to_gmap] sends every key
    to its first entry, which is the one [get] finds. *)
Section Refinement.
Context {K V : Type} `{Countable K}.
Implicit Types (m : @t K V) (k : K) (v : V).

Definition to_gmap m : gmap K V := list_to_map m.

Lemma get_to_gmap m k : get k m = to_gmap m !! k.
Proof.
  unfold to_gmap. induction m as [|[k0 v0] m IH]; simpl.
  - by rewrite lookup_empty.
  - case_decide; subst.
    + by rewrite lookup_insert_eq.
    + by rewrite lookup_insert_ne, IH.
Qed.

Lemma to_gmap_set m k v : to_gmap (set k v m) = <[k:=v]> (to_gmap m).
Proof.
  apply map_eq. intros k'. rewrite <- !get_to_gmap.
  destruct (decide (k = k')) as [<-|Hne].
  - by rewrite get_set_eq, lookup_insert_eq.
  - rewrite get_set_ne, lookup_insert_ne by done. by rewrite get_to_gmap.
Qed.

Lemma to_gmap_delete m k : wf m -> to_gmap (delete k m) = base.delete k (to_gmap m).
Proof.
  intros Hwf. apply map_eq. intros k'. rewrite <- get_to_gmap.
  destruct (decide (k = k')) as [<-|Hne].
  - by rewrite get_delete_eq, lookup_delete_eq.
  - rewrite get_delete_ne, lookup_delete_ne by done. by rewrite get_to_gmap.
Qed.

Lemma to_gmap_empty : to_gmap (@empty K V) = ∅.
Proof. reflexivity. Qed.
End Refinement.

End JsMap.
