(* ===== verification/Browser.v ===== *)
(** * Browser: the window services the timer store calls

    [timer.ts] calls [window.setInterval], [clearInterval], [console.log]
    and [console.error]; an exception that escapes an interval callback is
    reported by the browser as an uncaught error and the interval keeps
    running.  These are browser services, not code of the repository: the
    definitions here follow the HTML timer model (a table of live intervals,
    each with a handle, a delay and the time it is next due) and are not
    mapped to sources.

    Handles are allocated from a counter starting at 1, as browsers do (the
    code only compares the handle with [null]).  A delay below 1 ms is
    clamped to 1 ms ([effective_delay]); browsers clamp it to between 1 and
    4 ms, and the theorems that count ticks assume [intervalMs >= 1], where
    the clamp does nothing. *)

From Stdlib Require Import ZArith Lia String.
From stdpp Require Import base list strings.
From S2P Require Import Prelude.

Module Browser.

(** What the console (and the browser's error reporting) shows. *)
Inductive console_event :=
  | ConsoleLog (msg : string)
  | ConsoleError (msg : string)
  | UncaughtError.

(** One live interval: [setInterval(cb, delay)] returned [handle], and the
    callback is next due at time [due] (in ms). *)
Record Interval := mkInterval {
  handle : Z;
  delay : Z;
  due : Z
}.

Record Window := mkWindow {
  intervals : list Interval;
  next_handle : Z;
  now : Z
}.

Definition init : Window := mkWindow [] 1 0.

Definition effective_delay (d : Z) : Z := Z.max 1 d.

(** [window.setInterval(cb, delay)]: a fresh handle and a new live entry. *)
Definition setInterval (d : Z) (w : Window) : Z * Window :=
  let h := next_handle w in
  (h, mkWindow (intervals w ++ [mkInterval h d (now w + effective_delay d)])
               (h + 1) (now w)).

(** [clearInterval(h)]: the entry with handle [h] stops being live. *)
Definition clearInterval (h : Z) (w : Window) : Window :=
  mkWindow (filter (fun i => handle i <> h) (intervals w)) (next_handle w) (now w).

Definition live (h : Z) (w : Window) : bool :=
  existsb (fun i => bool_decide (handle i = h)) (intervals w).

(** After the callback of [h] ran, the interval is next due one delay
    later. *)
Definition reschedule (h : Z) (w : Window) : Window :=
  mkWindow (map (fun i => if bool_decide (handle i = h)
                          then mkInterval (handle i) (delay i) (due i + effective_delay (delay i))
                          else i) (intervals w))
           (next_handle w) (now w).

Definition set_now (t : Z) (w : Window) : Window :=
  mkWindow (intervals w) (next_handle w) t.

Definition handles (w : Window) : list Z := map handle (intervals w).

(** ** Lemmas on the interval table *)

Lemma handles_setInterval d w :
  handles (snd (setInterval d w)) = handles w ++ [next_handle w].
Proof. unfold handles. simpl. by rewrite map_app. Qed.

Lemma handles_clearInterval h w :
  handles (clearInterval h w) = filter (fun x => x <> h) (handles w).
Proof.
  unfold handles, clearInterval. simpl. induction (intervals w) as [|i l IH]; [done|].
  simpl. rewrite !filter_cons. case_decide; simpl; by rewrite IH.
Qed.

Lemma handles_clearInterval_owned h w :
  handles w = [h] -> handles (clearInterval h w) = [].
Proof.
  intros Hw. rewrite handles_clearInterval, Hw, filter_cons_False; [done|].
  naive_solver.
Qed.

Lemma handles_reschedule h w : handles (reschedule h w) = handles w.
Proof.
  unfold handles, reschedule. simpl. rewrite map_map. apply map_ext.
  intros i. by case_bool_decide.
Qed.

Lemma handles_set_now t w : handles (set_now t w) = handles w.
Proof. reflexivity. Qed.

Lemma live_handles h w : live h w = true <-> h ∈ handles w.
Proof.
  unfold live, handles. rewrite existsb_exists, list_elem_of_In, in_map_iff.
  split.
  - intros [i [Hin Hb%bool_decide_eq_true]]. by exists i.
  - intros [i [<- Hin]]. exists i. split; [done|]. by apply bool_decide_eq_true.
Qed.

Lemma effective_delay_pos d : (0 < effective_delay d)%Z.
Proof. unfold effective_delay. lia. Qed.

Lemma effective_delay_id d : (1 <= d)%Z -> effective_delay d = d.
Proof. unfold effective_delay. lia. Qed.

End Browser.

#[export] Instance console_event_eq_dec : EqDecision Browser.console_event.
Proof. solve_decision. Defined.

#[export] Hint Rewrite Browser.handles_setInterval Browser.handles_reschedule
  Browser.handles_set_now : solo.
#[export] Hint Resolve Browser.effective_delay_pos : solo.
