(* ===== verification/Timer.v ===== *)
(** * Timer: the global polling store of [src/src/store/timer.ts]

    [useGlobalTimerStore] is a Pinia setup store, created once per
    application: its state is [intervalMs], [timerId], the [jobs] map and
    the [subscribers] counter; its functions are [startTimer], [stopTimer],
    [registerJob], [unregisterJob], [addSubscriber] and [removeSubscriber],
    and the callback it passes to [setInterval] (here [tick]) iterates over
    [jobs.values()] and calls each job.

    The model passes one [World] explicitly: the store, the browser window
    (interval table and clock, see [Browser]) and the trace of what the
    program does that can be observed: each call of a job's [fn] and each
    console or uncaught-error report.  A job's [fn] is abstract; what the
    store can see of a call is given by the [JobBehaviour] interface: it
    returns, returns a promise (that the store never awaits), or throws
    synchronously.  The network calls a job makes are the [Http] layer's
    business and are invisible to the store. *)

From Stdlib Require Import ZArith Lia String.
From stdpp Require Import base list gmap strings.
From S2P Require Import Prelude JsMap Browser.

(** The result of calling a [() => Promise<void> | void] function, as far as
    the caller's control flow sees it. *)
Inductive settle := Resolves | Rejects.

Inductive call_result :=
  | Returns
  | ReturnsPromise (s : settle)
  | Throws.

#[export] Instance settle_eq_dec : EqDecision settle.
Proof. solve_decision. Defined.
#[export] Instance call_result_eq_dec : EqDecision call_result.
Proof. solve_decision. Defined.

(** The interface a job's function offers to the store: what one call of it
    does to the caller's control flow. *)
Class JobBehaviour (Fn : Type) := invoke : Fn -> call_result.

Module Timer.

(** [Number(import.meta.env.VITE_GLOBAL_TIMER_INTERVAL)]: [NaN] when the
    variable is absent or not numeric, otherwise its (integer) value. *)
Inductive js_number := NaN | Num (z : Z).

(** [Number(...) || 15000]: the default replaces the falsy numbers, [NaN]
    and [0]. *)
Definition initial_intervalMs (n : js_number) : Z :=
  match n with
  | Num z => if (z =? 0)%Z then 15000%Z else z
  | NaN => 15000%Z
  end.

Section Store.
Context {Fn : Type} `{JobBehaviour Fn}.

(** [type TimerJob = { id: string; fn: () => Promise<void> | void }] *)
Record TimerJob := mkJob { id : string; fn : Fn }.

Record Store := mkStore {
  intervalMs : Z;
  timerId : option Z;
  jobs : @JsMap.t string TimerJob;
  subscribers : Z
}.

Inductive event :=
  | Called (f : Fn)
  | Console (c : Browser.console_event).

Record World := mkWorld {
  store : Store;
  window : Browser.Window;
  trace : list event
}.

(** *** Field updates *)

Definition set_timerId (o : option Z) (s : Store) : Store :=
  mkStore (intervalMs s) o (jobs s) (subscribers s).
Definition set_jobs (j : @JsMap.t string TimerJob) (s : Store) : Store :=
  mkStore (intervalMs s) (timerId s) j (subscribers s).
Definition set_subscribers (n : Z) (s : Store) : Store :=
  mkStore (intervalMs s) (timerId s) (jobs s) n.
Definition with_store (f : Store -> Store) (w : World) : World :=
  mkWorld (f (store w)) (window w) (trace w).
Definition emit (e : event) (w : World) : World :=
  mkWorld (store w) (window w) (trace w ++ [e]).

Definition started_log : event := Console (Browser.ConsoleLog "[GlobalTimer] Started").
Definition stopped_log : event := Console (Browser.ConsoleLog "[GlobalTimer] Stopped").
Definition immediate_error_log : event :=
  Console (Browser.ConsoleError "Job immediate execution error:").

(** *** The store's functions *)

(** The store's initial state ([defineStore] setup, lines 11-15). *)
Definition init (env : js_number) : World :=
  mkWorld (mkStore (initial_intervalMs env) None JsMap.empty 0) Browser.init [].

Definition startTimer (w : World) : World :=
  match timerId (store w) with
  | None =>
      let '(h, win) := Browser.setInterval (intervalMs (store w)) (window w) in
      emit started_log
           (mkWorld (set_timerId (Some h) (store w)) win (trace w))
  | Some _ => w
  end.

Definition stopTimer (w : World) : World :=
  match timerId (store w) with
  | Some h =>
      emit stopped_log
           (mkWorld (set_timerId None (store w))
                    (Browser.clearInterval h (window w)) (trace w))
  | None => w
  end.

(** One call [f()]: the call is observed, and the boolean says whether it
    threw synchronously (a returned promise is not awaited). *)
Definition threw (r : call_result) : bool :=
  match r with Throws => true | _ => false end.

Definition call_fn (f : Fn) (w : World) : World * bool :=
  (emit (Called f) w, threw (invoke f)).

Definition addSubscriber (w : World) : World :=
  let w := with_store (fun s => set_subscribers (subscribers s + 1) s) w in
  if (subscribers (store w) =? 1)%Z then startTimer w else w.

Definition removeSubscriber (w : World) : World :=
  let w := with_store (fun s => set_subscribers (subscribers s - 1) s) w in
  if (subscribers (store w) <=? 0)%Z
  then stopTimer (with_store (set_subscribers 0) w)
  else w.

(** [jobs.set], then [try { fn() } catch { console.error } finally
    { addSubscriber() }]. *)
Definition registerJob (id : string) (fn : Fn) (w : World) : World :=
  let w := with_store (fun s => set_jobs (JsMap.set id (mkJob id fn) (jobs s)) s) w in
  let '(w, threw) := call_fn fn w in
  let w := if threw
           then emit immediate_error_log w
           else w in
  addSubscriber w.

Definition unregisterJob (id : string) (w : World) : World :=
  removeSubscriber (with_store (fun s => set_jobs (JsMap.delete id (jobs s)) s) w).

(** [for (const job of jobs.values()) { job.fn(); }]: a synchronous throw
    leaves the loop (the boolean result). *)
Fixpoint run_jobs (js : list TimerJob) (w : World) : World * bool :=
  match js with
  | [] => (w, false)
  | j :: js' =>
      let '(w', threw) := call_fn (fn j) w in
      if threw then (w', true) else run_jobs js' w'
  end.

(** The interval callback: the exception of a throwing job escapes it and
    is reported by the browser; the interval itself keeps running. *)
Definition tick (w : World) : World :=
  let '(w', threw) := run_jobs (JsMap.values (jobs (store w))) w in
  if threw then emit (Console Browser.UncaughtError) w' else w'.

(** ** The store invariant

    The counter is non-negative, the timer handle is present exactly when
    the counter is positive, the live intervals of the window are exactly
    the one the store owns, job ids are unique, and every entry is keyed
    by its job's own id ([jobs.set(id, { id, fn })]). *)
Definition owned (o : option Z) : list Z :=
  match o with Some h => [h] | None => [] end.

Definition keyed (m : @JsMap.t string TimerJob) : Prop :=
  Forall (fun e : string * TimerJob => id e.2 = e.1) m.

Definition inv (w : World) : Prop :=
  (0 <= subscribers (store w))%Z /\
  (is_Some (timerId (store w)) <-> (0 < subscribers (store w))%Z) /\
  Browser.handles (window w) = owned (timerId (store w)) /\
  JsMap.wf (jobs (store w)) /\
  keyed (jobs (store w)).
End Store.

Arguments TimerJob : clear implicits.
Arguments Store : clear implicits.
Arguments World : clear implicits.
Arguments event : clear implicits.

#[export] Instance event_eq_dec {Fn} `{EqDecision Fn} : EqDecision (event Fn).
Proof. solve_decision. Defined.

(** A job type for concrete runs: a name, and what calling it does. *)
Definition demo_job : Type := (string * call_result)%type.
#[export] Instance demo_behaviour : JobBehaviour demo_job := snd.

(** ** Structural lemmas: what each function changes *)

Section Laws.
Context {Fn : Type} `{JobBehaviour Fn}.
Implicit Types (w : World Fn) (js : list (TimerJob Fn)).

(** Jobs only add to the trace: calling them changes neither the store
    nor the window. *)
Lemma run_jobs_frame js w :
  store (fst (run_jobs js w)) = store w /\ window (fst (run_jobs js w)) = window w.
Proof.
  revert w. induction js as [|j js IH]; intros w; [done|]. simpl. unfold call_fn, threw.
  destruct (invoke (fn j)); [exact (IH (emit (Called (fn j)) w))..|done].
Qed.

Lemma tick_store w : store (tick w) = store w.
Proof.
  unfold tick. pose proof (run_jobs_frame (JsMap.values (jobs (store w))) w) as [Hs _].
  destruct (run_jobs _ w) as [w' []]; simpl in *; done.
Qed.

Lemma tick_window w : window (tick w) = window w.
Proof.
  unfold tick. pose proof (run_jobs_frame (JsMap.values (jobs (store w))) w) as [_ Hw].
  destruct (run_jobs _ w) as [w' []]; simpl in *; done.
Qed.

Lemma addSubscriber_jobs w : jobs (store (addSubscriber w)) = jobs (store w).
Proof.
  unfold addSubscriber, startTimer. simpl.
  destruct (_ =? 1)%Z, (timerId (store w)); done.
Qed.

Lemma removeSubscriber_jobs w : jobs (store (removeSubscriber w)) = jobs (store w).
Proof.
  unfold removeSubscriber, stopTimer. simpl.
  destruct (_ <=? 0)%Z, (timerId (store w)); done.
Qed.

Lemma addSubscriber_subscribers w :
  subscribers (store (addSubscriber w)) = (subscribers (store w) + 1)%Z.
Proof.
  unfold addSubscriber, startTimer. simpl.
  destruct (_ =? 1)%Z, (timerId (store w)); done.
Qed.

(** The decrement clamps at zero. *)
Lemma removeSubscriber_subscribers w :
  subscribers (store (removeSubscriber w)) = Z.max 0 (subscribers (store w) - 1).
Proof.
  rewrite <- clamp_decrement. unfold removeSubscriber, stopTimer. simpl.
  destruct (_ <=? 0)%Z, (timerId (store w)); done.
Qed.

(** The counter and the timer after [registerJob] only depend on the
    counter and timer before it: the job's call and its failure do not
    reach them. *)
Lemma registerJob_as_addSubscriber id f w :
  store (registerJob id f w) =
  store (addSubscriber (with_store (fun s => set_jobs (JsMap.set id (mkJob id f) (jobs s)) s) w)) /\
  window (registerJob id f w) =
  window (addSubscriber (with_store (fun s => set_jobs (JsMap.set id (mkJob id f) (jobs s)) s) w)).
Proof.
  unfold registerJob, call_fn, threw, addSubscriber, startTimer.
  destruct (invoke f); simpl; destruct (_ =? 1)%Z, (timerId (store w)); done.
Qed.
End Laws.

#[export] Hint Rewrite @tick_store @tick_window @addSubscriber_jobs @removeSubscriber_jobs
  @addSubscriber_subscribers @removeSubscriber_subscribers : solo.

(** ** Preservation of the store invariant *)

Section Invariant.
Context {Fn : Type} `{JobBehaviour Fn}.
Implicit Types (w : World Fn).

Lemma init_inv env : inv (Fn:=Fn) (init env).
Proof.
  unfold inv, init. simpl. split; [lia|].
  split; [|split; [done|split; [apply JsMap.empty_wf|constructor]]].
  split; [intros [? ?]; congruence|lia].
Qed.

(** Updating the jobs map keeps the counter/timer part of the invariant. *)
Lemma inv_set_jobs w j :
  inv w -> JsMap.wf j -> keyed j -> inv (with_store (set_jobs j) w).
Proof. unfold inv. simpl. tauto. Qed.

Lemma addSubscriber_inv w : inv w -> inv (addSubscriber w).
Proof.
  intros (Hpos & Hiff & Hown & Hwf & Hkey). unfold inv, addSubscriber, startTimer. simpl.
  destruct (Z.eqb_spec (subscribers (store w) + 1) 1) as [E|E].
  - destruct (timerId (store w)) as [h|] eqn:Ht.
    { exfalso. assert (0 < subscribers (store w))%Z by (apply Hiff; eauto). lia. }
    unfold Browser.handles in *. simpl in *. rewrite map_app, Hown.
    split; [lia|]. split; [split; [lia|eauto]|done].
  - simpl. split; [lia|]. split; [|done].
    split; [intros; lia|]. intros _. apply Hiff. lia.
Qed.

Lemma removeSubscriber_inv w : inv w -> inv (removeSubscriber w).
Proof.
  intros (Hpos & Hiff & Hown & Hwf & Hkey). unfold inv, removeSubscriber, stopTimer. simpl.
  destruct (Z.leb_spec (subscribers (store w) - 1) 0) as [E|E].
  - destruct (timerId (store w)) as [h|] eqn:Ht; simpl.
    + split; [lia|]. split; [split; [intros [? ?]; congruence|lia]|].
      split; [|done]. by apply Browser.handles_clearInterval_owned.
    + rewrite Ht. split; [lia|]. split; [split; [intros [? ?]; congruence|lia]|done].
  - simpl. split; [lia|]. split; [|done].
    split; [intros; lia|]. intros _. apply Hiff. lia.
Qed.

Lemma registerJob_inv id f w : inv w -> inv (registerJob id f w).
Proof.
  intros Hinv. pose proof (registerJob_as_addSubscriber id f w) as [Hs Hw].
  assert (Hi : inv (addSubscriber (with_store
            (fun s => set_jobs (JsMap.set id (mkJob id f) (jobs s)) s) w))).
  { apply addSubscriber_inv, inv_set_jobs; [done| |].
    - apply JsMap.set_wf, Hinv.
    - apply JsMap.Forall_set; [apply Hinv|done]. }
  unfold inv in *. by rewrite Hs, Hw.
Qed.

Lemma unregisterJob_inv id w : inv w -> inv (unregisterJob id w).
Proof.
  intros Hinv. apply removeSubscriber_inv, inv_set_jobs; [done| |].
  - apply JsMap.delete_wf, Hinv.
  - apply JsMap.Forall_delete, Hinv.
Qed.

Lemma tick_inv w : inv w -> inv (tick w).
Proof. unfold inv. by rewrite tick_store, tick_window. Qed.
End Invariant.

#[export] Hint Resolve init_inv addSubscriber_inv removeSubscriber_inv registerJob_inv
  unregisterJob_inv tick_inv : solo.

(** ** Functional behaviour of the store's functions *)

Section Behaviour.
Context {Fn : Type} `{JobBehaviour Fn}.
Implicit Types (w : World Fn) (js : list (TimerJob Fn)).

(** The loop over the jobs, split at a point of the list. *)
Lemma run_jobs_app js1 js2 w :
  run_jobs (js1 ++ js2) w =
  let '(w1, t) := run_jobs js1 w in if t then (w1, true) else run_jobs js2 w1.
Proof.
  revert w. induction js1 as [|j js1 IH]; intros w; [done|]. simpl.
  destruct (threw (invoke (fn j))); [done|]. apply IH.
Qed.

Lemma run_jobs_no_throw js w :
  Forall (fun j => invoke (fn j) <> Throws) js ->
  run_jobs js w = (mkWorld (store w) (window w) (trace w ++ map (fun j => Called (fn j)) js), false).
Proof.
  intros Hall. revert w. induction Hall as [|j js Hj Hall IH]; intros w.
  - destruct w. simpl. by rewrite app_nil_r.
  - simpl. unfold call_fn, threw. destruct (invoke (fn j)); try congruence;
      rewrite IH; simpl; by rewrite <- app_assoc.
Qed.

(** The counter after [registerJob] is one more, whatever the job does. *)
Lemma registerJob_subscribers id f w :
  subscribers (store (registerJob id f w)) = (subscribers (store w) + 1)%Z.
Proof.
  destruct (registerJob_as_addSubscriber id f w) as [-> _].
  by rewrite addSubscriber_subscribers.
Qed.

Lemma registerJob_jobs id f w :
  jobs (store (registerJob id f w)) = JsMap.set id (mkJob id f) (jobs (store w)).
Proof.
  destruct (registerJob_as_addSubscriber id f w) as [-> _].
  by rewrite addSubscriber_jobs.
Qed.

Lemma unregisterJob_jobs id w :
  jobs (store (unregisterJob id w)) = JsMap.delete id (jobs (store w)).
Proof. unfold unregisterJob. by rewrite removeSubscriber_jobs. Qed.

Lemma unregisterJob_subscribers id w :
  subscribers (store (unregisterJob id w)) = Z.max 0 (subscribers (store w) - 1).
Proof. unfold unregisterJob. by rewrite removeSubscriber_subscribers. Qed.

(** The trace [registerJob] leaves: the call, the caught error, the start. *)
Lemma registerJob_trace id f w :
  inv w ->
  trace (registerJob id f w) =
  trace w ++ [Called f] ++
    (if threw (invoke f) then [immediate_error_log] else []) ++
    (if (subscribers (store w) =? 0)%Z then [started_log] else []).
Proof.
  intros (Hpos & Hiff & _). unfold registerJob, call_fn, addSubscriber, startTimer.
  destruct (Z.eqb_spec (subscribers (store w)) 0) as [E|E].
  - destruct (timerId (store w)) eqn:Ht.
    { exfalso. assert (0 < subscribers (store w))%Z by (apply Hiff; eauto). lia. }
    destruct (threw (invoke f)); simpl; rewrite Ht, E; simpl; by rewrite <- !app_assoc.
  - destruct (threw (invoke f)); simpl;
      (destruct (Z.eqb_spec (subscribers (store w) + 1) 1); [lia|]);
      simpl; by rewrite <- ?app_assoc, ?app_nil_r.
Qed.

Lemma unregisterJob_timer_trace id w :
  inv w ->
  (timerId (store (unregisterJob id w)) = None <-> (subscribers (store w) <= 1)%Z) /\
  trace (unregisterJob id w) =
  trace w ++ (if (subscribers (store w) =? 1)%Z then [stopped_log] else []).
Proof.
  intros (Hpos & Hiff & _). unfold unregisterJob, removeSubscriber, stopTimer. simpl.
  destruct (Z.leb_spec (subscribers (store w) - 1) 0) as [E|E].
  - destruct (timerId (store w)) eqn:Ht; simpl.
    + assert (0 < subscribers (store w))%Z by (apply Hiff; eauto).
      destruct (Z.eqb_spec (subscribers (store w)) 1); [|lia]. split; [split; [lia|done]|done].
    + destruct (Z.eqb_spec (subscribers (store w)) 1) as [E1|E1].
      { exfalso. rewrite E1 in Hiff. destruct (proj2 Hiff) as [? ?]; [lia|congruence]. }
      rewrite Ht, app_nil_r. split; [split; [lia|done]|done].
  - simpl. destruct (Z.eqb_spec (subscribers (store w)) 1); [lia|].
    rewrite app_nil_r. split; [|done]. split; [|lia].
    intros Ht. destruct (proj2 Hiff) as [? ?]; [lia|congruence].
Qed.

(** The job entries of a map that satisfies the invariant are found by
    their id. *)
Lemma values_keyed (m : @JsMap.t string (TimerJob Fn)) j :
  JsMap.wf m -> keyed m -> j ∈ JsMap.values m -> JsMap.get (id j) m = Some j.
Proof.
  intros Hwf Hkey [k Hin]%JsMap.elem_of_values.
  pose proof (proj1 (Forall_forall _ _) Hkey _ Hin) as Hk.
  simpl in Hk. subst k. by apply JsMap.get_elem_of.
Qed.
End Behaviour.

(** ** Claims on the store's functions *)

Section Claims.
Context {Fn : Type} `{JobBehaviour Fn}.
Implicit Types (w : World Fn).

(** C3: [registerJob(id, fn)] stores the job under [id], calls [fn] exactly
    once at once (even when the call throws, whose error is logged and not
    rethrown), increments the counter, and starts the timer when the
    counter was 0; afterwards the timer runs. *)
Theorem registerJob_spec id f w :
  inv w ->
  let w' := registerJob id f w in
  subscribers (store w') = (subscribers (store w) + 1)%Z /\
  JsMap.get id (jobs (store w')) = Some (mkJob id f) /\
  trace w' = trace w ++ [Called f] ++
    (if threw (invoke f) then [immediate_error_log] else []) ++
    (if (subscribers (store w) =? 0)%Z then [started_log] else []) /\
  is_Some (timerId (store w')).
Proof.
  intros Hinv. cbv zeta. pose proof (registerJob_inv id f w Hinv) as (_ & Hiff & _).
  rewrite registerJob_subscribers in Hiff.
  split; [apply registerJob_subscribers|]. split.
  - rewrite registerJob_jobs. apply JsMap.get_set_eq.
  - split; [by apply registerJob_trace|]. apply Hiff. destruct Hinv; lia.
Qed.

(** C4: [unregisterJob(id)] removes the job, decrements the counter with a
    floor at 0, stops the timer exactly when the counter was at most 1,
    and logs the stop only when the counter goes from 1 to 0. *)
Theorem unregisterJob_spec id w :
  inv w ->
  let w' := unregisterJob id w in
  subscribers (store w') = Z.max 0 (subscribers (store w) - 1) /\
  JsMap.get id (jobs (store w')) = None /\
  (timerId (store w') = None <-> (subscribers (store w) <= 1)%Z) /\
  trace w' = trace w ++ (if (subscribers (store w) =? 1)%Z then [stopped_log] else []).
Proof.
  intros Hinv. cbv zeta. split; [apply unregisterJob_subscribers|]. split.
  - rewrite unregisterJob_jobs. apply JsMap.get_delete_eq, Hinv.
  - by apply unregisterJob_timer_trace.
Qed.

(** C5: when no registered job throws synchronously, a tick calls every
    registered job exactly once, in the map's insertion order, and changes
    nothing else (in particular the timer keeps running). *)
Theorem tick_calls_all w :
  Forall (fun j => invoke (fn j) <> Throws) (JsMap.values (jobs (store w))) ->
  tick w = mkWorld (store w) (window w)
             (trace w ++ map (fun j => Called (fn j)) (JsMap.values (jobs (store w)))).
Proof. intros Hall. unfold tick. by rewrite run_jobs_no_throw. Qed.

(** C6: the tick loop is not guarded: when a job throws synchronously, the
    jobs after it in the map are not called in that tick, and the error
    escapes the interval callback. *)
Theorem tick_throw_skips_rest w js1 j js2 :
  JsMap.values (jobs (store w)) = js1 ++ j :: js2 ->
  Forall (fun j => invoke (fn j) <> Throws) js1 ->
  invoke (fn j) = Throws ->
  tick w = mkWorld (store w) (window w)
             (trace w ++ map (fun j => Called (fn j)) js1 ++
                [Called (fn j); Console Browser.UncaughtError]).
Proof.
  intros Hv Hall Hj. unfold tick. rewrite Hv, run_jobs_app, run_jobs_no_throw by done.
  simpl. unfold call_fn, threw. rewrite Hj. simpl. unfold emit. simpl. by rewrite <- !app_assoc.
Qed.

(** C7: [unregisterJob] of an id that is not registered still decrements
    the shared counter: with one job registered, unregistering any other
    id stops the timer while the job stays in the map, so the job is
    never called by a tick again (no interval is live). *)
Theorem unregister_absent_stops_timer w k f other :
  inv w -> subscribers (store w) = 1%Z ->
  JsMap.get k (jobs (store w)) = Some (mkJob k f) -> other <> k ->
  let w' := unregisterJob other w in
  JsMap.get k (jobs (store w')) = Some (mkJob k f) /\
  timerId (store w') = None /\ Browser.handles (window w') = [].
Proof.
  intros Hinv H1 Hget Hne. cbv zeta. split.
  - by rewrite unregisterJob_jobs, JsMap.get_delete_ne.
  - destruct (unregisterJob_timer_trace other w Hinv) as [[_ Ht] _].
    assert (Hn : timerId (store (unregisterJob other w)) = None) by (apply Ht; lia).
    split; [done|]. destruct (unregisterJob_inv other w Hinv) as (_ & _ & Hown & _).
    by rewrite Hown, Hn.
Qed.

(** C10: registering an id again replaces its job: the map holds the new
    function under the id and no job with that id runs the old one, while
    the counter counts both registrations. *)
Theorem reregister_replaces k fa fb w :
  inv w ->
  let w' := registerJob k fb (registerJob k fa w) in
  JsMap.get k (jobs (store w')) = Some (mkJob k fb) /\
  (forall j, j ∈ JsMap.values (jobs (store w')) -> id j = k -> j = mkJob k fb) /\
  subscribers (store w') = (subscribers (store w) + 2)%Z.
Proof.
  intros Hinv. cbv zeta.
  pose proof (registerJob_inv k fb _ (registerJob_inv k fa w Hinv)) as (_ & _ & _ & Hwf & Hkey).
  assert (Hget : JsMap.get k (jobs (store (registerJob k fb (registerJob k fa w))))
                 = Some (mkJob k fb))
    by (rewrite registerJob_jobs; apply JsMap.get_set_eq).
  split; [done|]. split.
  - intros j Hj Hid. pose proof (values_keyed _ j Hwf Hkey Hj) as Hj'.
    rewrite Hid in Hj'. congruence.
  - rewrite !registerJob_subscribers. lia.
Qed.

(** C11: registering the same id twice and unregistering it once leaves an
    empty job map with the counter at 1 and the timer running. *)
Theorem reregister_unregister_keeps_timer env k fa fb :
  let w := unregisterJob k (registerJob k fb (registerJob k fa (init (Fn:=Fn) env))) in
  JsMap.values (jobs (store w)) = [] /\ subscribers (store w) = 1%Z /\
  is_Some (timerId (store w)).
Proof.
  cbv zeta.
  pose proof (unregisterJob_inv k _ (registerJob_inv k fb _ (registerJob_inv k fa _
                (init_inv env)))) as (_ & Hiff & _).
  rewrite unregisterJob_subscribers, !registerJob_subscribers in Hiff |- *. simpl in *.
  split; [|split; [done|apply Hiff; lia]].
  rewrite unregisterJob_jobs, !registerJob_jobs. simpl.
  case_decide; [|done]. simpl. by case_decide.
Qed.

(** C15: [Number(VITE_GLOBAL_TIMER_INTERVAL) || 15000] is positive unless
    the variable holds a negative number, which the code keeps as the
    interval. *)
Theorem initial_intervalMs_pos n :
  (0 < initial_intervalMs n)%Z <-> (forall z, n = Num z -> (0 <= z)%Z).
Proof.
  destruct n as [|z]; simpl.
  - split; [by intros _ z [=]|lia].
  - destruct (Z.eqb_spec z 0); split; intros Hz.
    + intros ? [= <-]; lia.
    + lia.
    + intros ? [= <-]; lia.
    + specialize (Hz z eq_refl). lia.
Qed.
End Claims.

(** ** Witnesses: the claims' hypotheses hold at concrete states *)

Definition poll : demo_job := ("poll", Returns).
Definition broken : demo_job := ("broken", Throws).

Lemma registerJob_spec_witness :
  inv (Fn:=demo_job) (init NaN) /\
  subscribers (store (registerJob "dashboard" broken (init NaN))) = 1%Z.
Proof.
  split; [apply init_inv|].
  exact (proj1 (registerJob_spec "dashboard" broken (init NaN) (init_inv NaN))).
Defined.

Lemma unregisterJob_spec_witness :
  let w := registerJob "dashboard" poll (init NaN) in
  inv w /\ subscribers (store (unregisterJob "dashboard" w)) = 0%Z.
Proof.
  cbv zeta. assert (Hi : inv (registerJob "dashboard" poll (init NaN)))
    by apply registerJob_inv, init_inv.
  split; [exact Hi|].
  exact (proj1 (unregisterJob_spec "dashboard" _ Hi)).
Defined.

Lemma tick_calls_all_witness :
  let w := registerJob "flows" poll (registerJob "dashboard" poll (init NaN)) in
  trace (tick w) = trace w ++ [Called poll; Called poll].
Proof.
  cbv zeta. rewrite (tick_calls_all _); [reflexivity|].
  vm_compute. repeat constructor; discriminate.
Defined.

Lemma tick_throw_skips_rest_witness :
  let w := registerJob "flows" poll (registerJob "broken" broken (init NaN)) in
  trace (tick w) = trace w ++ [Called broken; Console Browser.UncaughtError].
Proof.
  cbv zeta. rewrite (tick_throw_skips_rest _ [] (mkJob "broken" broken) [mkJob "flows" poll]).
  - reflexivity.
  - reflexivity.
  - constructor.
  - reflexivity.
Defined.

Lemma unregister_absent_stops_timer_witness :
  let w := unregisterJob "flows" (registerJob "dashboard" poll (init NaN)) in
  timerId (store w) = None /\ JsMap.get "dashboard" (jobs (store w)) = Some (mkJob "dashboard" poll).
Proof.
  cbv zeta.
  destruct (unregister_absent_stops_timer (registerJob "dashboard" poll (init NaN))
              "dashboard" poll "flows") as (Hg & Ht & _).
  - apply registerJob_inv, init_inv.
  - reflexivity.
  - reflexivity.
  - discriminate.
  - split; [exact Ht|exact Hg].
Defined.

Lemma reregister_replaces_witness :
  JsMap.get "dashboard" (jobs (store (registerJob "dashboard" broken
     (registerJob "dashboard" poll (init NaN))))) = Some (mkJob "dashboard" broken).
Proof. exact (proj1 (reregister_replaces "dashboard" poll broken (init NaN) (init_inv NaN))). Defined.

End Timer.
