(* ===== verification/Scheduler.v ===== *)
(** * Scheduler: the store inside the browser's event loop

    The views call [registerJob] and [unregisterJob]; between those calls,
    time passes and the browser runs the callback of every interval that
    comes due.  Each of these is one atomic step of the single-threaded
    event loop ([op], [exec]).  Time passing is [run_until t]: while the
    earliest live interval is due at or before [t], the clock moves to its
    due time, the interval is rescheduled one delay later and its callback
    (the store's [tick]) runs; then the clock moves to [t].

    A caller may also write the [intervalMs] ref the store returns
    ([SetIntervalMs]); the live interval keeps its delay.  [clock_ok] is
    the clock discipline of the live interval (due after the clock, within
    one period), an invariant of the reachable states; with it, elapsing
    one period calls every job (liveness), and [ticks] counts exactly how
    many identical ticks ([tick_events]) a stretch of time brings.

    Elapsed time is never negative: [Elapse dt] with [dt < 0] lets no
    time pass.

    [run_until] is defined by fuel; [measure] bounds the number of firings
    (every firing moves a due time at least 1 ms further, and only due
    times at or before [t] count), so [measure t w] fuel is always enough
    ([run_until_Some]). *)

From Stdlib Require Import ZArith Lia String.
From stdpp Require Import base list gmap strings.
From S2P Require Import Prelude JsMap Browser Timer.

Module Scheduler.
Import Timer.

Section Loop.
Context {Fn : Type} `{JobBehaviour Fn}.
Implicit Types (w : World Fn).

(** The earliest live interval (the first one among equal due times). *)
Fixpoint earliest (l : list Browser.Interval) : option Browser.Interval :=
  match l with
  | [] => None
  | i :: l' =>
      match earliest l' with
      | Some j => if (Browser.due j <? Browser.due i)%Z then Some j else Some i
      | None => Some i
      end
  end.

Definition set_clock (t : Z) (w : World Fn) : World Fn :=
  mkWorld (store w) (Browser.set_now t (window w)) (trace w).

(** Interval [i] comes due: the clock moves to its due time, it is
    rescheduled, and its callback runs. *)
Definition fire (i : Browser.Interval) (w : World Fn) : World Fn :=
  tick (mkWorld (store w)
          (Browser.reschedule (Browser.handle i) (Browser.set_now (Browser.due i) (window w)))
          (trace w)).

Fixpoint run_until (fuel : nat) (t : Z) (w : World Fn) : option (World Fn) :=
  match earliest (Browser.intervals (window w)) with
  | Some i =>
      if (Browser.due i <=? t)%Z
      then match fuel with
           | O => None
           | S n => run_until n t (fire i w)
           end
      else Some (set_clock t w)
  | None => Some (set_clock t w)
  end.

(** The number of firings left before time [t]: for every interval, the
    milliseconds by which its due time is at or before [t]. *)
Definition measure (t : Z) (w : World Fn) : nat :=
  sum_list (map (fun i => Z.to_nat (t + 1 - Browser.due i)) (Browser.intervals (window w))).

(** A caller's write to the [intervalMs] ref the store returns
    ([timer.ts] line 69): the field changes, the live interval does not. *)
Definition write_intervalMs (v : Z) (w : World Fn) : World Fn :=
  with_store (fun s => mkStore v (timerId s) (jobs s) (subscribers s)) w.

(** One step of the event loop. *)
Inductive op :=
  | Register (id : string) (f : Fn)
  | Unregister (id : string)
  | Elapse (dt : Z)
  | SetIntervalMs (v : Z).   (* [store.intervalMs = v]: the store returns the ref *)

Definition exec (o : op) (w : World Fn) : World Fn :=
  match o with
  | Register id f => registerJob id f w
  | Unregister id => unregisterJob id w
  | Elapse dt =>
      let t := (Browser.now (window w) + Z.max 0 dt)%Z in
      match run_until (measure t w) t w with
      | Some w' => w'
      | None => w
      end
  | SetIntervalMs v => write_intervalMs v w
  end.

Definition exec_ops (ops : list op) (w : World Fn) : World Fn :=
  fold_left (fun w o => exec o w) ops w.

(** The states the program can reach from its start. *)
Inductive reachable (env : js_number) : World Fn -> Prop :=
  | reach_init : reachable env (init env)
  | reach_exec o w : reachable env w -> reachable env (exec o w).

(** The net registration count of the spec: registrations minus
    unregistrations, floored at 0 after each step. *)
Definition count_after (ops : list op) : Z :=
  fold_left (fun n o =>
               match o with
               | Register _ _ => (n + 1)%Z
               | Unregister _ => Z.max 0 (n - 1)
               | Elapse _ | SetIntervalMs _ => n
               end) ops 0%Z.

(** How often [f] was called in a trace. *)
Definition calls `{EqDecision Fn} (f : Fn) (tr : list (event Fn)) : nat :=
  length (filter (fun e => e = Called f) tr).
(** The clock discipline of the live intervals: each is next due strictly
    after the clock and at most one (clamped) period of its own after it. *)
Definition clock_ok (w : World Fn) : Prop :=
  Forall (fun i => (Browser.now (window w) < Browser.due i <=
                    Browser.now (window w) + Browser.effective_delay (Browser.delay i))%Z)
         (Browser.intervals (window w)).
(** The events a loop over [js] appends, and whether a job threw. *)
Fixpoint run_events (js : list (TimerJob Fn)) : list (event Fn) * bool :=
  match js with
  | [] => ([], false)
  | j :: js' =>
      if threw (invoke (fn j)) then ([Called (fn j)], true)
      else let '(e, b) := run_events js' in (Called (fn j) :: e, b)
  end.

(** The events one tick of a store appends to the trace. *)
Definition tick_events (s : Store Fn) : list (event Fn) :=
  let '(e, b) := run_events (JsMap.values (jobs s)) in
  if b then e ++ [Console Browser.UncaughtError] else e.

(** How often an interval due at [due i] with its clamped period fires up
    to and including time [t]. *)
Definition ticks (i : Browser.Interval) (t : Z) : nat :=
  if (Browser.due i <=? t)%Z
  then S (Z.to_nat ((t - Browser.due i) / Browser.effective_delay (Browser.delay i)))
  else 0.
End Loop.

Arguments op : clear implicits.

(** ** Lemmas on firing and on the measure *)

Section Lemmas.
Context {Fn : Type} `{JobBehaviour Fn}.
Implicit Types (w : World Fn).

Lemma earliest_None l : earliest l = None -> l = [].
Proof. destruct l as [|i l]; simpl; [done|]. destruct (earliest l); [case_match|]; discriminate. Qed.

Lemma earliest_in l i : earliest l = Some i -> i ∈ l.
Proof.
  induction l as [|j l IH]; simpl; [done|].
  destruct (earliest l) as [k|] eqn:E.
  - destruct (Z.ltb_spec (Browser.due k) (Browser.due j)); intros [= <-];
      [right; by apply IH|left].
  - intros [= <-]. left.
Qed.

(** The invariant only looks at the store and at the live handles. *)
Lemma inv_frame w w' :
  store w' = store w -> Browser.handles (window w') = Browser.handles (window w) ->
  inv w -> inv w'.
Proof. intros Hs Hh. unfold inv. by rewrite Hs, Hh. Qed.

Lemma fire_store i w : store (fire i w) = store w.
Proof. unfold fire. by rewrite tick_store. Qed.

Lemma fire_handles i w : Browser.handles (window (fire i w)) = Browser.handles (window w).
Proof. unfold fire. rewrite tick_window. simpl. by autorewrite with solo. Qed.

Lemma run_until_frame n t w w' :
  run_until n t w = Some w' ->
  store w' = store w /\ Browser.handles (window w') = Browser.handles (window w).
Proof.
  revert w. induction n as [|n IH]; intros w; simpl;
    destruct (earliest _) as [i|]; try destruct (Z.leb_spec (Browser.due i) t);
    intros Hrun; simplify_eq; try done.
  destruct (IH _ Hrun) as [-> ->]. by rewrite fire_store, fire_handles.
Qed.

(** The invariant does not look at [intervalMs]. *)
Lemma write_intervalMs_inv v w : inv w -> inv (write_intervalMs v w).
Proof. done. Qed.

Lemma exec_inv o w : inv w -> inv (exec o w).
Proof.
  destruct o as [id f|id|dt|v]; simpl;
    [apply registerJob_inv|apply unregisterJob_inv| |apply write_intervalMs_inv].
  destruct (run_until _ _ _) as [w'|] eqn:Hrun; [|done].
  destruct (run_until_frame _ _ _ _ Hrun). by apply inv_frame.
Qed.

Lemma exec_subscribers o w :
  subscribers (store (exec o w)) =
  match o with
  | Register _ _ => (subscribers (store w) + 1)%Z
  | Unregister _ => Z.max 0 (subscribers (store w) - 1)
  | Elapse _ | SetIntervalMs _ => subscribers (store w)
  end.
Proof.
  destruct o as [id f|id|dt|v]; simpl;
    [apply registerJob_subscribers|apply unregisterJob_subscribers| |done].
  destruct (run_until _ _ _) as [w'|] eqn:Hrun; [|done].
  by destruct (run_until_frame _ _ _ _ Hrun) as [-> _].
Qed.

Definition resched (h : Z) (j : Browser.Interval) : Browser.Interval :=
  if bool_decide (Browser.handle j = h)
  then Browser.mkInterval (Browser.handle j) (Browser.delay j)
         (Browser.due j + Browser.effective_delay (Browser.delay j))
  else j.

Lemma sum_resched_le t h (l : list Browser.Interval) :
  sum_list (map (fun i => Z.to_nat (t + 1 - Browser.due i)) (map (resched h) l))
  <= sum_list (map (fun i => Z.to_nat (t + 1 - Browser.due i)) l).
Proof.
  induction l as [|j l IH]; simpl; [lia|]. unfold resched at 1.
  case_bool_decide; simpl; [pose proof (Browser.effective_delay_pos (Browser.delay j))|]; lia.
Qed.

Lemma sum_resched_lt t h (l : list Browser.Interval) i :
  i ∈ l -> Browser.handle i = h -> (Browser.due i <= t)%Z ->
  sum_list (map (fun i => Z.to_nat (t + 1 - Browser.due i)) (map (resched h) l))
  < sum_list (map (fun i => Z.to_nat (t + 1 - Browser.due i)) l).
Proof.
  intros Hin Hh Ht. induction l as [|j l IH]; [by apply not_elem_of_nil in Hin|].
  pose proof (sum_resched_le t h l). simpl.
  apply elem_of_cons in Hin as [->|Hin].
  - unfold resched at 1. rewrite bool_decide_eq_true_2 by done. simpl.
    pose proof (Browser.effective_delay_pos (Browser.delay j)). lia.
  - specialize (IH Hin). unfold resched at 1.
    case_bool_decide; simpl; [pose proof (Browser.effective_delay_pos (Browser.delay j))|]; lia.
Qed.

(** Jobs and ticks only append to the trace. *)
Lemma run_jobs_trace js w : trace w `prefix_of` trace (fst (run_jobs js w)).
Proof.
  revert w. induction js as [|j js IH]; intros w; simpl; [done|].
  unfold call_fn, emit. destruct (threw _); simpl; [by apply prefix_app_r|].
  etrans; [|apply IH]. by apply prefix_app_r.
Qed.

Lemma tick_trace w : trace w `prefix_of` trace (tick w).
Proof.
  unfold tick. pose proof (run_jobs_trace (JsMap.values (jobs (store w))) w) as Hp.
  destruct (run_jobs _ w) as [w' []]; simpl in *; [|done].
  etrans; [exact Hp|]. by apply prefix_app_r.
Qed.

Lemma fire_trace i w : trace w `prefix_of` trace (fire i w).
Proof. unfold fire. apply (tick_trace (mkWorld _ _ _)). Qed.

(** Each firing of a due interval uses up at least one unit of the
    measure. *)
Lemma measure_fire t i w :
  i ∈ Browser.intervals (window w) -> (Browser.due i <= t)%Z ->
  measure t (fire i w) < measure t w.
Proof.
  intros Hin Ht. unfold measure, fire. rewrite tick_window. cbn [window].
  assert (E : Browser.intervals (Browser.reschedule (Browser.handle i)
                (Browser.set_now (Browser.due i) (window w)))
              = map (resched (Browser.handle i)) (Browser.intervals (window w)))
    by reflexivity.
  rewrite E. by apply sum_resched_lt with i.
Qed.
(** Fuel at least the measure suffices: [run_until] returns a state whose
    clock is [t], and it only appends to the trace. *)
Lemma run_until_Some fuel t w :
  measure t w <= fuel ->
  exists w', run_until fuel t w = Some w' /\ Browser.now (window w') = t /\
             (trace w `prefix_of` trace w').
Proof.
  revert w. induction fuel as [|n IH]; intros w Hm; simpl;
    (destruct (earliest _) as [i|] eqn:E; [|by eexists]);
    (destruct (Z.leb_spec (Browser.due i) t); [|by eexists]);
    pose proof (measure_fire t i w (earliest_in _ _ E)); [lia|].
  destruct (IH (fire i w)) as (w' & Hr & Hn & Hp); [lia|].
  exists w'. split_and!; [done|done|]. etrans; [|exact Hp]. apply fire_trace.
Qed.
End Lemmas.

(** ** The clock invariant *)

Section Clock.
Context {Fn : Type} `{JobBehaviour Fn}.
Implicit Types (w : World Fn).

Lemma clock_ok_ext w w' : window w' = window w -> clock_ok w -> clock_ok w'.
Proof. intros Hw. unfold clock_ok. by rewrite Hw. Qed.

Lemma addSubscriber_clock w : clock_ok w -> clock_ok (addSubscriber w).
Proof.
  intros Hc. unfold addSubscriber, startTimer.
  destruct (_ =? 1)%Z; [|exact Hc]. simpl. destruct (timerId (store w)); [exact Hc|].
  unfold clock_ok. simpl. apply Forall_app. split; [exact Hc|].
  apply Forall_singleton. simpl.
  pose proof (Browser.effective_delay_pos (intervalMs (store w))). lia.
Qed.

Lemma removeSubscriber_clock w : clock_ok w -> clock_ok (removeSubscriber w).
Proof.
  intros Hc. unfold removeSubscriber, stopTimer.
  destruct (_ <=? 0)%Z; [|exact Hc]. simpl. destruct (timerId (store w)); [|exact Hc].
  unfold clock_ok. simpl. by apply Forall_filter_sub.
Qed.

Lemma registerJob_clock id f w : clock_ok w -> clock_ok (registerJob id f w).
Proof.
  intros Hc. destruct (registerJob_as_addSubscriber id f w) as [Hs Hw].
  eapply clock_ok_ext; [exact Hw|]. by apply addSubscriber_clock.
Qed.

Lemma unregisterJob_clock id w : clock_ok w -> clock_ok (unregisterJob id w).
Proof. intros Hc. by apply removeSubscriber_clock. Qed.

(** The invariant leaves at most one live interval. *)
Lemma inv_intervals w : inv w -> length (Browser.intervals (window w)) <= 1.
Proof.
  intros (_ & _ & Hh & _). unfold Browser.handles in Hh.
  rewrite <- (length_map Browser.handle), Hh. unfold owned. destruct (timerId (store w)); simpl; lia.
Qed.

Lemma single_interval (l : list Browser.Interval) i :
  length l <= 1 -> i ∈ l -> l = [i].
Proof.
  destruct l as [|a [|b l]]; simpl; intros Hl Hin; [by apply not_elem_of_nil in Hin| |lia].
  by apply list_elem_of_singleton in Hin as ->.
Qed.

(** Firing the one live interval: the clock moves to its due time and it
    is next due one period later. *)
Lemma fire_single i w :
  Browser.intervals (window w) = [i] ->
  Browser.intervals (window (fire i w)) = [resched (Browser.handle i) i] /\
  Browser.now (window (fire i w)) = Browser.due i /\ store (fire i w) = store w.
Proof.
  intros Hi. unfold fire. rewrite tick_window, tick_store. simpl. by rewrite Hi.
Qed.

Lemma run_until_clock n t w w' :
  length (Browser.intervals (window w)) <= 1 -> clock_ok w ->
  (Browser.now (window w) <= t)%Z -> run_until n t w = Some w' -> clock_ok w'.
Proof.
  revert w. induction n as [|n IH]; intros w Hl Hc Ht; simpl;
    destruct (earliest _) as [i|] eqn:E;
    try (intros [= <-]; unfold clock_ok; simpl;
         apply earliest_None in E; by rewrite E).
  all: pose proof (single_interval _ _ Hl (earliest_in _ _ E)) as Hi;
    unfold clock_ok in Hc; rewrite Hi in Hc; apply Forall_inv in Hc.
  all: destruct (Z.leb_spec (Browser.due i) t); try discriminate;
    try (intros [= <-]; unfold clock_ok; simpl; rewrite Hi; constructor; [lia|done]).
  destruct (fire_single i w Hi) as (Hi' & Hn & Hs).
  apply IH; [by rewrite Hi'| |lia].
  unfold clock_ok. rewrite Hi', Hn. unfold resched. rewrite bool_decide_eq_true_2 by done.
  constructor; [simpl; lia|done].
Qed.

Lemma exec_clock o w : inv w -> clock_ok w -> clock_ok (exec o w).
Proof.
  intros Hinv Hc. destruct o as [id f|id|dt|v]; simpl;
    [by apply registerJob_clock|by apply unregisterJob_clock| |exact Hc].
  destruct (run_until _ _ _) as [w'|] eqn:Hr; [|done].
  eapply run_until_clock; [by apply inv_intervals|done| |exact Hr]. lia.
Qed.

(** Every reachable state satisfies both the store invariant and the clock
    discipline. *)
Lemma reachable_state_ok env w : reachable env w -> inv w /\ clock_ok w.
Proof.
  induction 1 as [|o w _ [Hi Hc]]; [split; [apply init_inv|constructor]|].
  split; [by apply exec_inv|by apply exec_clock].
Qed.

(** The live interval of a running timer. *)
Lemma live_interval w h :
  inv w -> timerId (store w) = Some h ->
  exists i, Browser.intervals (window w) = [i] /\ Browser.handle i = h.
Proof.
  intros (_ & _ & Hh & _) Ht. unfold Browser.handles in Hh. rewrite Ht in Hh. simpl in Hh.
  destruct (Browser.intervals (window w)) as [|i [|j l]]; simpl in Hh; try discriminate.
  injection Hh as <-. by exists i.
Qed.

Lemma run_until_fire n t w i :
  earliest (Browser.intervals (window w)) = Some i -> (Browser.due i <= t)%Z ->
  run_until (S n) t w = run_until n t (fire i w).
Proof. intros E Hd. simpl. rewrite E. by destruct (Z.leb_spec (Browser.due i) t); [|lia]. Qed.

(** A tick in which no job throws calls every job once, in order. *)
Lemma tick_trace_no_throw w :
  Forall (fun j => invoke (fn j) <> Throws) (JsMap.values (jobs (store w))) ->
  trace (tick w) = trace w ++ map (fun j => Called (fn j)) (JsMap.values (jobs (store w))).
Proof. intros Hall. unfold tick. by rewrite run_jobs_no_throw. Qed.
End Clock.

(** ** Counting ticks *)

Section Count.
Context {Fn : Type} `{JobBehaviour Fn}.
Implicit Types (w : World Fn).

Lemma run_jobs_events js w :
  run_jobs js w =
  (mkWorld (store w) (window w) (trace w ++ (run_events js).1), (run_events js).2).
Proof.
  revert w. induction js as [|j js IH]; intros w; simpl.
  - destruct w. by rewrite app_nil_r.
  - unfold call_fn. destruct (threw _); [done|]. rewrite IH. simpl.
    destruct (run_events js). simpl. by rewrite <- app_assoc.
Qed.

Lemma tick_events_trace w : tick w = mkWorld (store w) (window w) (trace w ++ tick_events (store w)).
Proof.
  unfold tick, tick_events. rewrite run_jobs_events.
  destruct (run_events _) as [e []]; simpl; [|done]. unfold emit. simpl. by rewrite app_assoc.
Qed.

(** One firing uses up one tick of the count. *)
Lemma ticks_resched i t :
  (Browser.due i <= t)%Z -> ticks i t = S (ticks (resched (Browser.handle i) i) t).
Proof.
  intros Hd. unfold ticks, resched. rewrite bool_decide_eq_true_2 by done. simpl.
  pose proof (Browser.effective_delay_pos (Browser.delay i)) as Hp.
  set (p := Browser.effective_delay (Browser.delay i)) in *.
  destruct (Z.leb_spec (Browser.due i) t); [|lia]. f_equal.
  destruct (Z.leb_spec (Browser.due i + p) t).
  - replace (t - Browser.due i)%Z with ((t - (Browser.due i + p)) + 1 * p)%Z by lia.
    rewrite Z.div_add by lia.
    assert (0 <= (t - (Browser.due i + p)) / p)%Z by (apply Z.div_pos; lia).
    rewrite Z2Nat.inj_add by lia. simpl. lia.
  - rewrite Z.div_small by lia. done.
Qed.

(** With one live interval, [run_until] appends one tick's events per
    firing, and the number of firings is [ticks]. *)
Lemma run_until_count n t w i :
  Browser.intervals (window w) = [i] -> measure t w <= n ->
  exists w', run_until n t w = Some w' /\
    trace w' = trace w ++ concat (replicate (ticks i t) (tick_events (store w))).
Proof.
  revert w i. induction n as [|n IH]; intros w i Hi Hm.
  all: assert (E : earliest (Browser.intervals (window w)) = Some i) by (rewrite Hi; done).
  all: destruct (Z.leb_spec (Browser.due i) t) as [Hd|Hd].
  - pose proof (measure_fire t i w (earliest_in _ _ E) Hd). lia.
  - exists (set_clock t w). simpl. rewrite E.
    destruct (Z.leb_spec (Browser.due i) t); [lia|]. unfold ticks.
    destruct (Z.leb_spec (Browser.due i) t); [lia|]. simpl. by rewrite app_nil_r.
  - pose proof (measure_fire t i w (earliest_in _ _ E) Hd).
    destruct (fire_single i w Hi) as (Hi' & _ & Hs).
    destruct (IH (fire i w) _ Hi') as (w' & Hr & Htr); [lia|].
    exists w'. rewrite (run_until_fire n t w i E Hd). split; [done|].
    rewrite Htr, Hs, (ticks_resched i t Hd). simpl.
    unfold fire. rewrite tick_events_trace. simpl. by rewrite app_assoc.
  - exists (set_clock t w). simpl. rewrite E.
    destruct (Z.leb_spec (Browser.due i) t); [lia|]. unfold ticks.
    destruct (Z.leb_spec (Browser.due i) t); [lia|]. simpl. by rewrite app_nil_r.
Qed.
End Count.

(** ** Claims on the event loop *)

(** A plain job for the witnesses. *)
Definition jobA : demo_job := ("A", Returns).

Section Claims.
Context {Fn : Type} `{JobBehaviour Fn}.
Implicit Types (w : World Fn).

(** C1: in every state the program can reach, the subscriber counter is
    non-negative, the timer handle is set exactly when the counter is
    positive, exactly that one interval is live in the window (none when
    the counter is 0), and the job map has unique keys, each entry under
    its job's own id. *)
Theorem reachable_inv env w : reachable env w -> inv w.
Proof. induction 1; [apply init_inv|by apply exec_inv]. Qed.

(** C2: after any sequence of registrations, unregistrations and elapsed
    time from the start, the counter equals the net registration count
    floored at 0 after each step, and the timer runs exactly when that
    count is positive. *)
Theorem exec_ops_count env ops :
  let w := exec_ops ops (init (Fn:=Fn) env) in
  subscribers (store w) = count_after ops /\
  (is_Some (timerId (store w)) <-> (0 < count_after ops)%Z).
Proof.
  cbv zeta. unfold exec_ops, count_after.
  assert (Hgen : forall w, inv w ->
    inv (fold_left (fun w o => exec o w) ops w) /\
    subscribers (store (fold_left (fun w o => exec o w) ops w)) =
    fold_left (fun n o => match o with
                          | Register _ _ => (n + 1)%Z
                          | Unregister _ => Z.max 0 (n - 1)
                          | Elapse _ | SetIntervalMs _ => n end) ops (subscribers (store w))).
  { induction ops as [|o ops IH]; intros w Hw; simpl; [done|].
    rewrite <- exec_subscribers. by apply IH, exec_inv. }
  destruct (Hgen _ (init_inv env)) as [(_ & Hiff & _) Hs].
  change (subscribers (store (init (Fn:=Fn) env))) with 0%Z in Hs. rewrite <- Hs. done.
Qed.

(** C8: liveness of polling: in a reachable state where the timer runs
    and no registered job throws synchronously, there is a positive period
    (the live interval's clamped delay) such that letting at least that
    much time pass calls every registered job, in insertion order, in a
    tick that follows everything observed so far. *)
Theorem elapse_period_calls_all env w :
  reachable env w -> is_Some (timerId (store w)) ->
  Forall (fun j => invoke (fn j) <> Throws) (JsMap.values (jobs (store w))) ->
  exists p, (0 < p)%Z /\
    forall dt, (p <= dt)%Z ->
      (trace w ++ map (fun j => Called (fn j)) (JsMap.values (jobs (store w))))
        `prefix_of` trace (exec (Elapse dt) w).
Proof.
  intros Hr [h Hh] Hall. destruct (reachable_state_ok _ _ Hr) as [Hinv Hc].
  destruct (live_interval w h Hinv Hh) as (i & Hi & _).
  unfold clock_ok in Hc. rewrite Hi in Hc. apply Forall_inv in Hc.
  exists (Browser.effective_delay (Browser.delay i)). split; [apply Browser.effective_delay_pos|].
  intros dt Hdt. simpl. set (t := (Browser.now (window w) + Z.max 0 dt)%Z).
  assert (Hdue : (Browser.due i <= t)%Z)
    by (unfold t; pose proof (Browser.effective_delay_pos (Browser.delay i)); lia).
  assert (E : earliest (Browser.intervals (window w)) = Some i) by (rewrite Hi; done).
  pose proof (measure_fire t i w (earliest_in _ _ E) Hdue) as Hm.
  destruct (measure t w) as [|n] eqn:Hmn; [lia|].
  rewrite (run_until_fire n t w i E Hdue).
  destruct (run_until_Some n t (fire i w)) as (w' & -> & _ & Hpre); [lia|].
  etrans; [|exact Hpre]. unfold fire. rewrite tick_trace_no_throw by done. done.
Qed.

(** C14: a caller's write to the [intervalMs] ref is not applied to a
    running timer: the live interval keeps its delay and due time.  Only
    the next start of the timer (the counter going from 0 to 1) creates an
    interval with the new period.  The spec calls the period immutable
    after start-up; the store exposes it writable. *)
Theorem write_intervalMs_deferred v w id f :
  let w1 := exec (SetIntervalMs v) w in
  window w1 = window w /\ intervalMs (store w1) = v /\
  (inv w -> timerId (store w) = None ->
   Browser.intervals (window (exec (Register id f) w1)) =
     Browser.intervals (window w) ++
     [Browser.mkInterval (Browser.next_handle (window w)) v
                         (Browser.now (window w) + Browser.effective_delay v)]).
Proof.
  cbv zeta. split_and!; [done|done|]. intros (Hpos & Hiff & _) Ht.
  assert (Hs : subscribers (store w) = 0%Z).
  { rewrite Ht in Hiff. destruct (Z.eq_dec (subscribers (store w)) 0%Z); [done|].
    assert (is_Some (@None Z)) as [? ?]; [apply Hiff; lia|discriminate]. }
  simpl. destruct (registerJob_as_addSubscriber id f (write_intervalMs v w)) as [_ ->].
  unfold addSubscriber, startTimer. simpl. rewrite Hs, Ht. done.
Qed.

(** C9: how many ticks a stretch of time brings: with one live interval
    [i], letting [dt] pass appends one tick's events (the same block every
    time, since jobs cannot change the store) exactly [ticks i t] times,
    where [t = now + max 0 dt]: [(t - due) / period + 1] firings when the
    interval is due by [t], none otherwise.  A job that throws therefore
    blocks the jobs after it at every tick. *)
Theorem elapse_tick_count w dt i :
  Browser.intervals (window w) = [i] ->
  trace (exec (Elapse dt) w) =
    trace w ++ concat (replicate (ticks i (Browser.now (window w) + Z.max 0 dt))
                                 (tick_events (store w))).
Proof.
  intros Hi. simpl. set (t := (Browser.now (window w) + Z.max 0 dt)%Z).
  destruct (run_until_count (measure t w) t w i Hi (le_n _)) as (w' & -> & Htr). exact Htr.
Qed.

End Claims.

(** ** Witnesses *)

Lemma reachable_inv_witness :
  let w := exec (Register "A" jobA) (init (Num 1000)) in
  reachable (Num 1000) w /\ inv w.
Proof.
  cbv zeta.
  assert (Hr : reachable (Num 1000) (exec (Register "A" jobA) (init (Num 1000))))
    by (apply reach_exec, reach_init).
  split; [exact Hr|exact (reachable_inv _ _ Hr)].
Defined.

Lemma write_intervalMs_deferred_witness :
  let w := init (Fn:=demo_job) (Num 1000) in
  inv w /\ timerId (store w) = None /\
  Browser.intervals (window (exec (Register "A" jobA) (exec (SetIntervalMs 500) w))) =
    [Browser.mkInterval 1 500 500].
Proof.
  cbv zeta. split_and!; [apply init_inv|done|].
  exact (proj2 (proj2 (write_intervalMs_deferred 500 (init (Num 1000)) "A" jobA))
           (init_inv _) eq_refl).
Defined.

Lemma elapse_tick_count_witness :
  let w := exec_ops [Register "A" jobA; Register "B" (("B", Throws) : demo_job)] (init (Num 1000)) in
  Browser.intervals (window w) = [Browser.mkInterval 1 1000 1000] /\
  trace (exec (Elapse 3100) w) =
    trace w ++ concat (replicate (ticks (Browser.mkInterval 1 1000 1000)
                                        (Browser.now (window w) + Z.max 0 3100))
                                 (tick_events (store w))).
Proof.
  cbv zeta. split; [vm_compute; reflexivity|].
  apply elapse_tick_count. vm_compute. reflexivity.
Defined.

Lemma elapse_period_calls_all_witness :
  let w := exec (Register "A" jobA) (init (Num 1000)) in
  exists p, (0 < p)%Z /\
    forall dt, (p <= dt)%Z ->
      (trace w ++ map (fun j => Called (fn j)) (JsMap.values (jobs (store w))))
        `prefix_of` trace (exec (Elapse dt) w).
Proof.
  cbv zeta. apply (elapse_period_calls_all (Num 1000)).
  - apply reach_exec, reach_init.
  - vm_compute. by eexists.
  - vm_compute. repeat constructor; discriminate.
Defined.

End Scheduler.
