(* ===== verification/Registry.v ===== *)
(** * Registry: the abstract contract of the polling store, and refinement

    What [timer.ts] promises its callers about registration, with order
    and browser details forgotten: a finite map from job ids to job
    functions, a subscriber count, and the timer running exactly when the
    count is positive.

    [abs] maps a store state to this abstract state (the job map through
    [JsMap.to_gmap], the counter as a natural number).  The refinement
    theorems show that [registerJob] and [unregisterJob] commute with their
    abstract counterparts on the whole map, and that the timer handle is
    the abstract [running]. *)

From Stdlib Require Import ZArith Lia String.
From stdpp Require Import base list gmap strings.
From S2P Require Import Prelude JsMap Browser Timer.

Module Registry.
Import Timer.

Section Spec.
Context {Fn : Type}.

Record state := mkState {
  reg : gmap string Fn;
  count : nat
}.

Definition register (id : string) (f : Fn) (s : state) : state :=
  mkState (<[id:=f]> (reg s)) (S (count s)).

Definition unregister (id : string) (s : state) : state :=
  mkState (delete id (reg s)) (Nat.pred (count s)).

Definition running (s : state) : Prop := 0 < count s.

End Spec.

Arguments state : clear implicits.

(** ** The abstraction of a store state *)

Section Abs.
Context {Fn : Type} `{JobBehaviour Fn}.

Definition abs (w : World Fn) : state Fn :=
  mkState (fn <$> JsMap.to_gmap (jobs (store w))) (Z.to_nat (subscribers (store w))).

End Abs.

(** ** Refinement theorems *)

Section Refinement.
Context {Fn : Type} `{JobBehaviour Fn}.
Implicit Types (w : World Fn).

(** C12: [registerJob] implements the abstract [register]: the job map
    gains (or replaces) the entry, and the count grows by one. *)
Theorem registerJob_refines id f w :
  inv w -> abs (registerJob id f w) = register id f (abs w).
Proof.
  intros (Hpos & _). unfold abs, register. simpl.
  rewrite registerJob_jobs, registerJob_subscribers, JsMap.to_gmap_set, fmap_insert.
  f_equal. lia.
Qed.

(** C13: [unregisterJob] implements the abstract [unregister]: the entry
    is removed, the count decremented with a floor at 0; and in every
    state satisfying the invariant the timer runs exactly when the
    abstract count is positive. *)
Theorem unregisterJob_refines id w :
  inv w ->
  abs (unregisterJob id w) = unregister id (abs w) /\
  (is_Some (timerId (store w)) <-> running (abs w)).
Proof.
  intros (Hpos & Hiff & _ & Hwf & _). unfold abs, unregister, running. simpl.
  rewrite unregisterJob_jobs, unregisterJob_subscribers, JsMap.to_gmap_delete by done.
  rewrite fmap_delete. split; [f_equal; lia|]. rewrite Hiff. lia.
Qed.

End Refinement.

(** ** Witnesses *)

Lemma registerJob_refines_witness :
  abs (registerJob "dashboard" poll (init NaN)) =
  register "dashboard" poll (abs (init (Fn:=demo_job) NaN)).
Proof. exact (registerJob_refines "dashboard" poll (init NaN) (init_inv NaN)). Defined.

Lemma unregisterJob_refines_witness :
  let w := registerJob "dashboard" poll (init NaN) in
  abs (unregisterJob "dashboard" w) = unregister "dashboard" (abs w).
Proof.
  cbv zeta.
  exact (proj1 (unregisterJob_refines "dashboard" _ (registerJob_inv _ _ _ (init_inv NaN)))).
Defined.

End Registry.
