(* ===== verification/JsValue.v ===== *)
(** * JsValue: the JavaScript values the HTTP layer inspects

    [globalErrorResponseInterceptor] reads [error.response.data.message]
    from a body of type [any] (parsed JSON, or the raw text when the body is
    not JSON), tests it with [||], turns it into a string with
    [new Error(...)], formats the status with a template literal and
    searches [error.message] with [includes].  This file models exactly
    those language operations (ECMAScript, not repository code):

    - [jsval]: undefined, null, booleans, integral numbers, strings, arrays
      and objects (an object is its list of own properties, keys distinct
      as [JSON.parse] produces them);
    - [truthy] (ToBoolean), [to_string] (ToString, with [Array] joining its
      elements with commas and objects printing as "[object Object]"),
      [decimal] (Number-to-String for integers);
    - [get_prop]: a property read, [None] when it throws a [TypeError]
      (reading a property of [undefined] or [null]); on a primitive or an
      array it gives [undefined], which holds for the property names the
      code reads ("message", "data");
    - [includes]: [String.prototype.includes].

    Strings are byte strings: the code's non-ASCII messages are their UTF-8
    bytes.  [includes] is only applied with the ASCII needle "timeout",
    and an ASCII byte never occurs inside the UTF-8 encoding of another
    character, so byte search and UTF-16 search agree on it. *)

From Stdlib Require Import ZArith Lia String DecimalString.
From stdpp Require Import base list.
From S2P Require Import Prelude.

Module JsValue.
Local Open Scope string_scope.
#[local] Set Warnings "-register-all".

Inductive jsval :=
  | JUndefined
  | JNull
  | JBool (b : bool)
  | JNum (z : Z)
  | JStr (s : string)
  | JArr (items : list jsval)
  | JObj (props : list (string * jsval)).

(** ToBoolean *)
Definition truthy (v : jsval) : bool :=
  match v with
  | JUndefined | JNull => false
  | JBool b => b
  | JNum z => negb (z =? 0)%Z
  | JStr s => negb (String.eqb s "")
  | JArr _ | JObj _ => true
  end.

(** [a || b]: [a] when it is truthy, else [b]. *)
Definition js_or (a b : jsval) : jsval := if truthy a then a else b.

(** Number-to-String on integers. *)
Definition decimal (z : Z) : string := NilZero.string_of_int (Z.to_int z).

Fixpoint join (sep : string) (l : list string) : string :=
  match l with
  | [] => ""
  | [s] => s
  | s :: l' => s ++ sep ++ join sep l'
  end.

(** ToString ([String(v)]). *)
Fixpoint to_string (v : jsval) : string :=
  match v with
  | JUndefined => "undefined"
  | JNull => "null"
  | JBool true => "true"
  | JBool false => "false"
  | JNum z => decimal z
  | JStr s => s
  | JArr items =>
      join "," (map (fun x => match x with
                              | JUndefined | JNull => ""
                              | _ => to_string x
                              end) items)
  | JObj _ => "[object Object]"
  end.

Fixpoint lookup_prop (p : string) (props : list (string * jsval)) : option jsval :=
  match props with
  | [] => None
  | (k, v) :: props' => if String.eqb k p then Some v else lookup_prop p props'
  end.

(** [v.p]; [None] is the [TypeError] of reading a property of undefined or
    null. *)
Definition get_prop (v : jsval) (p : string) : option jsval :=
  match v with
  | JUndefined | JNull => None
  | JObj props => Some (match lookup_prop p props with Some x => x | None => JUndefined end)
  | _ => Some JUndefined
  end.

(** [s.startsWith(p)] *)
Fixpoint starts_with (p s : string) : bool :=
  match p, s with
  | EmptyString, _ => true
  | String c p', String c' s' => Ascii.eqb c c' && starts_with p' s'
  | String _ _, EmptyString => false
  end.

(** [hay.includes(needle)] *)
Fixpoint includes (needle hay : string) : bool :=
  starts_with needle hay ||
  match hay with
  | EmptyString => false
  | String _ hay' => includes needle hay'
  end.

(** ** Lemmas *)

Lemma starts_with_spec (p s : string) : starts_with p s = true <-> exists r, s = (p ++ r)%string.
Proof.
  revert s. induction p as [|c p IH]; intros s; simpl.
  - split; intros; [by exists s|done].
  - destruct s as [|c' s].
    + split; [done|]. by intros [r ?].
    + rewrite andb_true_iff, IH. destruct (Ascii.eqb_spec c c') as [->|Hne].
      * split; [intros [_ [r Hr]]; exists r; by rewrite Hr|].
        intros [r Hr]. split; [done|]. exists r. by injection Hr.
      * split; [by intros []|]. intros [r [= ]]. congruence.
Qed.

(** [includes] finds exactly the occurrences of the needle. *)
Lemma includes_spec (needle hay : string) :
  includes needle hay = true <-> exists pre post, hay = (pre ++ needle ++ post)%string.
Proof.
  induction hay as [|c hay IH]; simpl; rewrite orb_true_iff, starts_with_spec.
  - split.
    + intros [[r Hr]|Hf]; [by exists "", r|discriminate].
    + intros [pre [post Hp]]. left. exists post.
      destruct pre; [done|discriminate].
  - rewrite IH. split.
    + intros [[r Hr]|[pre [post Hp]]].
      * by exists "", r.
      * exists (String c pre), post. simpl. by rewrite Hp.
    + intros [[|c' pre] [post Hp]].
      * left. by exists post.
      * right. exists pre, post. simpl in Hp. by injection Hp.
Qed.

Lemma decimal_nonempty (z : Z) : decimal z <> "".
Proof.
  unfold decimal, NilZero.string_of_int, NilZero.string_of_uint.
  destruct (Z.to_int z) as [[]|[]]; discriminate.
Qed.

(** The string of a truthy value is empty only for an array. *)
Lemma to_string_truthy_nonempty (v : jsval) :
  truthy v = true -> (forall items, v <> JArr items) -> to_string v <> "".
Proof.
  destruct v as [| |[]|z|s|items|props]; simpl; try discriminate; intros Ht Harr.
  - apply decimal_nonempty.
  - intros ->. discriminate.
  - by destruct (Harr items).
Qed.

Lemma truthy_str (s : string) : truthy (JStr s) = true <-> s <> "".
Proof.
  simpl. rewrite negb_true_iff. split.
  - intros E ->. discriminate.
  - intros Hne. by apply String.eqb_neq.
Qed.

End JsValue.
