(* ===== verification/Env.v ===== *)
(** * Env: [Number(import.meta.env.VITE_GLOBAL_TIMER_INTERVAL) || 15000]

    Line 11 of [timer.ts] reads the interval from the build environment:
    the variable is a string, or [undefined] when it is not set, and
    [Number] converts it with ECMAScript's StringToNumber:
    - leading and trailing white space is removed;
    - the empty string is 0;
    - a StrNumericLiteral is its value;
    - anything else is NaN.
    [Timer.initial_intervalMs] then applies [|| 15000].

    The model's numbers are the integers of [Timer.js_number], so
    [Number_of_string] is exact on:
    - blank strings;
    - integer literals [[+-]digits] ([int_literal], read with the
      Standard Library's [DecimalString]);
    - non-numeric strings (NaN).
    It returns [None] for the numeric literals whose value is not an
    integer of the model's form: fractions, exponents, [Infinity], and the
    [0x]/[0o]/[0b] forms ([other_numeric_literal] recognises them).
    White space is the ASCII part of the ECMAScript set. *)

From Stdlib Require Import ZArith Lia String Ascii Decimal DecimalString DecimalPos.
From stdpp Require Import base list.
From S2P Require Import Prelude JsValue Timer.

Module Env.
Import JsValue Timer.
Local Open Scope string_scope.

(** ** Trimming *)

(** TAB, LF, VT, FF, CR and SPACE. *)
Definition is_ws (c : ascii) : bool :=
  let n := nat_of_ascii c in (Nat.leb 9 n && Nat.leb n 13) || Nat.eqb n 32.

Fixpoint trim_start (s : string) : string :=
  match s with
  | EmptyString => EmptyString
  | String c r => if is_ws c then trim_start r else s
  end.

Fixpoint trim_end (s : string) : string :=
  match s with
  | EmptyString => EmptyString
  | String c r =>
      let r' := trim_end r in
      if is_ws c && String.eqb r' "" then EmptyString else String c r'
  end.

Definition trim (s : string) : string := trim_end (trim_start s).

(** ** Integer literals *)

Definition is_digit (c : ascii) : bool :=
  let n := nat_of_ascii c in Nat.leb 48 n && Nat.leb n 57.

(** [[+-]?digits]: an integer value.  [DecimalString] reads the digits
    (leading zeros allowed; no digits, no value). *)
Definition int_literal (s : string) : option Z :=
  match s with
  | EmptyString => None
  | String c r =>
      if Ascii.eqb c "+" then option_map Z.of_uint (NilZero.uint_of_string r)
      else if Ascii.eqb c "-" then
        option_map (fun u => Z.opp (Z.of_uint u)) (NilZero.uint_of_string r)
      else option_map Z.of_uint (NilZero.uint_of_string s)
  end.

(** ** The other numeric literals of StringToNumber *)

Fixpoint span_digits (l : list ascii) : nat * list ascii :=
  match l with
  | c :: r => if is_digit c then let '(n, r') := span_digits r in (S n, r') else (0, l)
  | [] => (0, [])
  end.

Definition digits_exactly (l : list ascii) : bool :=
  let '(n, r) := span_digits l in Nat.ltb 0 n && bool_decide (r = []).

(** [ExponentPart?]: empty, or [e]/[E], a sign, digits. *)
Definition exponent_opt (l : list ascii) : bool :=
  match l with
  | [] => true
  | e :: r =>
      (Ascii.eqb e "e" || Ascii.eqb e "E") &&
      match r with
      | s :: r' => if Ascii.eqb s "+" || Ascii.eqb s "-" then digits_exactly r' else digits_exactly r
      | [] => false
      end
  end.

(** StrUnsignedDecimalLiteral: [Infinity], [d.d?e?], [.d e?], [d e?]. *)
Definition unsigned_decimal (l : list ascii) : bool :=
  bool_decide (l = list_ascii_of_string "Infinity") ||
  let '(n1, r1) := span_digits l in
  match r1 with
  | "."%char :: r2 => let '(n2, r3) := span_digits r2 in Nat.ltb 0 (n1 + n2) && exponent_opt r3
  | _ => Nat.ltb 0 n1 && exponent_opt r1
  end.

Definition decimal_literal (l : list ascii) : bool :=
  match l with
  | c :: r => if Ascii.eqb c "+" || Ascii.eqb c "-" then unsigned_decimal r else unsigned_decimal l
  | [] => false
  end.

Definition radix_digit (radix : nat) (c : ascii) : bool :=
  let n := nat_of_ascii c in
  match radix with
  | 16 => is_digit c || (Nat.leb 97 n && Nat.leb n 102) || (Nat.leb 65 n && Nat.leb n 70)
  | _ => Nat.leb 48 n && Nat.ltb n (48 + radix)
  end.

(** NonDecimalIntegerLiteral: [0b], [0o], [0x] (either case), digits. *)
Definition non_decimal_literal (l : list ascii) : bool :=
  match l with
  | "0"%char :: x :: ds =>
      let radix := if Ascii.eqb x "b" || Ascii.eqb x "B" then 2
                   else if Ascii.eqb x "o" || Ascii.eqb x "O" then 8
                   else if Ascii.eqb x "x" || Ascii.eqb x "X" then 16 else 0 in
      negb (Nat.eqb radix 0) && negb (bool_decide (ds = [])) && forallb (radix_digit radix) ds
  | _ => false
  end.

Definition other_numeric_literal (s : string) : bool :=
  let l := list_ascii_of_string s in decimal_literal l || non_decimal_literal l.

(** ** [Number(v)] and the interval *)

Definition Number_of_string (s : string) : option js_number :=
  let t := trim s in
  if String.eqb t "" then Some (Num 0)
  else match int_literal t with
       | Some z => Some (Num z)
       | None => if other_numeric_literal t then None else Some NaN
       end.

(** [Number(import.meta.env.VITE_GLOBAL_TIMER_INTERVAL)]: [undefined]
    when the variable is not set. *)
Definition Number_env (v : option string) : option js_number :=
  match v with
  | None => Some NaN
  | Some s => Number_of_string s
  end.

Definition startup_intervalMs (v : option string) : option Z :=
  option_map initial_intervalMs (Number_env v).

(** ** Lemmas *)

(** A string without white space. *)
Definition plain (s : string) : bool := forallb (fun c => negb (is_ws c)) (list_ascii_of_string s).

Lemma trim_end_plain s : plain s = true -> trim_end s = s.
Proof.
  induction s as [|c r IH]; [done|]. unfold plain. simpl.
  intros [Hc Hr]%andb_prop. rewrite IH by exact Hr. by destruct (is_ws c).
Qed.

Lemma trim_plain s : plain s = true -> trim s = s.
Proof.
  intros Hp. unfold trim. destruct s as [|c r]; [done|]. simpl.
  destruct (is_ws c) eqn:Hc; [unfold plain in Hp; simpl in Hp; by rewrite Hc in Hp|].
  by apply trim_end_plain.
Qed.

Lemma plain_uint u : plain (NilEmpty.string_of_uint u) = true.
Proof. induction u; [reflexivity|..]; exact IHu. Qed.

Lemma plain_cons c s : plain (String c s) = negb (is_ws c) && plain s.
Proof. reflexivity. Qed.

Lemma plain_decimal z : plain (decimal z) = true.
Proof.
  unfold decimal, NilZero.string_of_int, NilZero.string_of_uint.
  destruct (Z.to_int z) as [u|u]; destruct u; try reflexivity; try apply plain_uint;
    rewrite plain_cons; apply plain_uint.
Qed.

(** The printed digits of a non-empty [uint] start with a digit. *)
Lemma string_of_uint_head u :
  u <> Nil -> exists c r, NilZero.string_of_uint u = String c r /\
                          Ascii.eqb c "+" = false /\ Ascii.eqb c "-" = false.
Proof. destruct u; [done|..]; intros _; by do 2 eexists. Qed.

Lemma int_literal_uint u : u <> Nil -> int_literal (NilZero.string_of_uint u) = Some (Z.of_uint u).
Proof.
  intros Hu. destruct (string_of_uint_head u Hu) as (c & r & Hs & Hp & Hm).
  pose proof (NilZero.usu u Hu) as Hr. rewrite Hs in Hr |- *. cbn [int_literal].
  by rewrite Hp, Hm, Hr.
Qed.

Lemma int_literal_neg_uint u :
  u <> Nil -> int_literal (String "-" (NilZero.string_of_uint u)) = Some (- Z.of_uint u)%Z.
Proof. intros Hu. simpl. by rewrite NilZero.usu. Qed.

Lemma of_uint_to_uint p : Z.of_uint (Pos.to_uint p) = Zpos p.
Proof. unfold Z.of_uint. by rewrite DecimalPos.Unsigned.of_to. Qed.

(** Reading back a printed integer. *)
Lemma int_literal_decimal z : int_literal (decimal z) = Some z.
Proof.
  unfold decimal. destruct z as [|p|p]; [reflexivity| |].
  - change (Z.to_int (Zpos p)) with (Pos (Pos.to_uint p)). unfold NilZero.string_of_int.
    rewrite int_literal_uint by apply DecimalPos.Unsigned.to_uint_nonnil.
    by rewrite of_uint_to_uint.
  - change (Z.to_int (Zneg p)) with (Neg (Pos.to_uint p)). unfold NilZero.string_of_int.
    rewrite int_literal_neg_uint by apply DecimalPos.Unsigned.to_uint_nonnil.
    by rewrite of_uint_to_uint.
Qed.

Lemma decimal_not_empty z : String.eqb (decimal z) "" = false.
Proof. apply String.eqb_neq, decimal_nonempty. Qed.

(** ** Claims *)

(** C16: an interval configured as the decimal text of an integer [z]
    (the form [Number.prototype.toString] prints) is read back exactly:
    [Number] gives [z], and the startup interval is [z], or 15000 when
    [z] is 0. *)
Theorem Number_decimal_roundtrip z :
  Number_env (Some (decimal z)) = Some (Num z) /\
  startup_intervalMs (Some (decimal z)) = Some (if (z =? 0)%Z then 15000%Z else z).
Proof.
  assert (E : Number_env (Some (decimal z)) = Some (Num z)).
  { simpl. unfold Number_of_string. rewrite trim_plain by apply plain_decimal.
    by rewrite decimal_not_empty, int_literal_decimal. }
  split; [exact E|]. unfold startup_intervalMs. by rewrite E.
Qed.

(** C17: the default: when the variable is not set, is blank, or is not a
    numeric literal at all, the interval is 15000 ms. *)
Theorem startup_intervalMs_default v :
  (v = None \/ (exists s, v = Some s /\
     (trim s = "" \/ (int_literal (trim s) = None /\ other_numeric_literal (trim s) = false)))) ->
  startup_intervalMs v = Some 15000%Z.
Proof.
  intros [-> | (s & -> & [Hb | [Hi Ho]])]; [done| |];
    unfold startup_intervalMs; simpl; unfold Number_of_string.
  - by rewrite Hb.
  - destruct (String.eqb_spec (trim s) ""); [done|]. by rewrite Hi, Ho.
Qed.

(** ** Witnesses *)

Lemma startup_intervalMs_default_witness :
  startup_intervalMs (Some " fast ") = Some 15000%Z.
Proof.
  apply startup_intervalMs_default. right. exists " fast ". split; [done|].
  right. split; vm_compute; reflexivity.
Defined.

End Env.
