(* ===== verification/Http.v ===== *)
(** * Http: the axios instances and the error interceptor of
      [src/src/utils/http.ts]

    The file creates two axios instances with the same base URL and a
    15-second timeout: [restAxiosInstance], whose response interceptor
    passes successful responses through and sends every failure through
    [globalErrorResponseInterceptor], and [blobAxiosInstance], which has no
    interceptor.

    [globalErrorResponseInterceptor] classifies the [AxiosError] (a response
    with a non-2xx status; a request sent without response; a request not
    sent), builds the message, and rejects with an [Error] whose [cause]
    records the original error, the HTTP status (only when a response was
    received), a business code (always [null]) and [isAxiosError: true].

    How axios itself turns a server's behaviour into a response or an
    [AxiosError] ([dispatch]: timeout, status validation, network failure,
    configuration failure) is library behaviour, modelled from the axios
    sources ([lib/core/settle.js], the XHR adapter's timeout and network
    handlers) and not mapped to sources of the repository. *)

From Stdlib Require Import ZArith Lia String.
From stdpp Require Import base list.
From S2P Require Import Prelude JsValue.

Module Http.
Import JsValue.
Local Open Scope string_scope.

(** The outcome of an asynchronous operation: the value, or the rejection. *)
Inductive result (A E : Type) :=
  | Ok (a : A)
  | Err (e : E).
Arguments Ok {A E} a.
Arguments Err {A E} e.

(** ** Data *)

(** [AxiosResponse]: the status and the body ([data: any]). *)
Record response := mkResponse { status : Z; data : jsval }.

(** [AxiosError], as far as the interceptor reads it. *)
Record axios_error := mkAxiosError {
  response_of : option response;   (* error.response *)
  request_sent : bool;             (* error.request is set *)
  code : option string;            (* error.code *)
  err_message : string             (* error.message *)
}.

(** [enhancedError.cause] *)
Record error_cause := mkCause {
  originalError : axios_error;
  httpStatus : option Z;
  businessCode : option Z;
  isAxiosError : bool
}.

(** The [Error] the interceptor rejects with. *)
Record enhanced_error := mkError { message : string; cause : error_cause }.

(** An axios instance: [axios.create({ baseURL, timeout })]. *)
Record instance := mkInstance { baseURL : string; timeout : Z }.

Definition restAxiosInstance (base : string) : instance := mkInstance base (1000 * 15).
Definition blobAxiosInstance (base : string) : instance := mkInstance base (1000 * 15).

(** ** The interceptor *)

Definition status_failed_message (s : Z) : string := "请求失败，状态码: " ++ decimal s.
Definition timeout_message : string := "请求超时，请检查网络或稍后再试".
Definition network_message : string := "网络异常，无法连接服务器".
Definition unknown_message : string := "发起请求时发生未知错误".

(** [error.code === 'ECONNABORTED' || error.message.includes('timeout')] *)
Definition is_timeout (e : axios_error) : bool :=
  match code e with Some c => String.eqb c "ECONNABORTED" | None => false end
  || includes "timeout" (err_message e).

Definition globalErrorResponseInterceptor (e : axios_error) : enhanced_error :=
  let '(errorMessage, httpStatus) :=
    match response_of e with
    | Some r =>
        (* try { flowResponse.message || `...${httpStatus}` } catch { ... } *)
        (match get_prop (data r) "message" with
         | Some m => to_string (js_or m (JStr (status_failed_message (status r))))
         | None => status_failed_message (status r)
         end, Some (status r))
    | None =>
        if request_sent e
        then (if is_timeout e then timeout_message else network_message, None)
        else (to_string (js_or (JStr (err_message e)) (JStr unknown_message)), None)
    end in
  mkError errorMessage (mkCause e httpStatus None true).

(** ** Axios around the interceptor (library behaviour) *)

(** What the server side does with one request. *)
Inductive server :=
  | Answers (latency : Z) (r : response)   (* a response after [latency] ms *)
  | Unreachable                            (* no response at all *)
  | BadConfig (msg : string).              (* the request cannot be sent *)

(** Axios's adapter and [settle]: the timeout, then [validateStatus]
    ([200 <= status < 300]). *)
(** [settle]'s code: [[ERR_BAD_REQUEST, ERR_BAD_RESPONSE][floor(status/100) - 4]],
    undefined outside 4xx and 5xx. *)
Definition status_code (st : Z) : option string :=
  if (400 <=? st)%Z && (st <? 500)%Z then Some "ERR_BAD_REQUEST"
  else if (500 <=? st)%Z && (st <? 600)%Z then Some "ERR_BAD_RESPONSE"
  else None.

Definition dispatch (i : instance) (s : server) : result response axios_error :=
  match s with
  | Answers lat r =>
      if (0 <? timeout i)%Z && (timeout i <? lat)%Z
      then Err (mkAxiosError None true (Some "ECONNABORTED")
                  ("timeout of " ++ decimal (timeout i) ++ "ms exceeded"))
      else if (200 <=? status r)%Z && (status r <? 300)%Z
      then Ok r
      else Err (mkAxiosError (Some r) true
                  (status_code (status r))
                  ("Request failed with status code " ++ decimal (status r)))
  | Unreachable => Err (mkAxiosError None true (Some "ERR_NETWORK") "Network Error")
  | BadConfig msg => Err (mkAxiosError None false None msg)
  end.

(** A request on [restAxiosInstance]: [interceptors.response.use((response)
    => response, globalErrorResponseInterceptor)]. *)
Definition rest_request (base : string) (s : server) : result response enhanced_error :=
  match dispatch (restAxiosInstance base) s with
  | Ok r => Ok r
  | Err e => Err (globalErrorResponseInterceptor e)
  end.

(** A request on [blobAxiosInstance]: no interceptor. *)
Definition blob_request (base : string) (s : server) : result response axios_error :=
  dispatch (blobAxiosInstance base) s.

(** ** Lemmas *)

Lemma status_failed_message_nonempty st : status_failed_message st <> "".
Proof. discriminate. Qed.

(** The server branch of the interceptor, by the value of [data.message]. *)
Lemma interceptor_response e r :
  response_of e = Some r ->
  globalErrorResponseInterceptor e =
  mkError (match get_prop (data r) "message" with
           | Some m => to_string (js_or m (JStr (status_failed_message (status r))))
           | None => status_failed_message (status r)
           end) (mkCause e (Some (status r)) None true).
Proof. intros Hr. unfold globalErrorResponseInterceptor. by rewrite Hr. Qed.

(** The timeout test of line 44, by its two disjuncts. *)
Lemma is_timeout_spec e :
  is_timeout e = true <->
  code e = Some "ECONNABORTED" \/ exists pre post, err_message e = pre ++ "timeout" ++ post.
Proof.
  unfold is_timeout. rewrite orb_true_iff, includes_spec.
  destruct (code e) as [c|]; [rewrite String.eqb_eq|]; naive_solver.
Qed.

Lemma timeout_network_distinct : timeout_message <> network_message.
Proof. vm_compute. discriminate. Qed.

Lemma interceptor_no_response_eq e :
  response_of e = None ->
  globalErrorResponseInterceptor e =
  mkError (if request_sent e
           then if is_timeout e then timeout_message else network_message
           else to_string (js_or (JStr (err_message e)) (JStr unknown_message)))
          (mkCause e None None true).
Proof. intros Hr. unfold globalErrorResponseInterceptor. rewrite Hr. by destruct (request_sent e). Qed.

Lemma js_or_str_fallback (s d : string) :
  to_string (js_or (JStr s) (JStr d)) = if String.eqb s "" then d else s.
Proof. unfold js_or. simpl. by destruct (String.eqb s ""). Qed.

(** ** Claims on the interceptor *)

(** C18: a non-2xx response whose body has a non-empty string [message]
    gives that message, with the HTTP status recorded. *)
Theorem interceptor_server_message e r m :
  response_of e = Some r -> get_prop (data r) "message" = Some (JStr m) -> m <> "" ->
  message (globalErrorResponseInterceptor e) = m /\
  httpStatus (cause (globalErrorResponseInterceptor e)) = Some (status r).
Proof.
  intros Hr Hm Hne. rewrite (interceptor_response e r Hr), Hm. simpl. split; [|done].
  unfold js_or. by rewrite (proj2 (truthy_str m) Hne).
Qed.

(** C19: a non-2xx response whose body has no usable [message] (the body
    is [null] or [undefined], which makes the property read throw; a
    string or array, which has no such property; or an object whose
    [message] is absent or falsy) gives "请求失败，状态码: <status>", with
    the status recorded. *)
Theorem interceptor_server_fallback e r :
  response_of e = Some r ->
  (forall v, get_prop (data r) "message" = Some v -> truthy v = false) ->
  message (globalErrorResponseInterceptor e) = status_failed_message (status r) /\
  httpStatus (cause (globalErrorResponseInterceptor e)) = Some (status r).
Proof.
  intros Hr Hf. rewrite (interceptor_response e r Hr). simpl. split; [|done].
  destruct (get_prop (data r) "message") as [v|]; [|done].
  unfold js_or. by rewrite (Hf v eq_refl).
Qed.

(** C20: a request sent without a response gives the timeout message
    exactly when the error code is ECONNABORTED or the error message
    contains "timeout", and the connectivity message otherwise; no status
    is recorded. *)
Theorem interceptor_no_response e :
  response_of e = None -> request_sent e = true ->
  (message (globalErrorResponseInterceptor e) = timeout_message <->
     code e = Some "ECONNABORTED" \/
     exists pre post, err_message e = pre ++ "timeout" ++ post) /\
  (message (globalErrorResponseInterceptor e) = timeout_message \/
   message (globalErrorResponseInterceptor e) = network_message) /\
  httpStatus (cause (globalErrorResponseInterceptor e)) = None.
Proof.
  intros Hr Hs. rewrite (interceptor_no_response_eq e Hr), Hs, <- is_timeout_spec. simpl.
  pose proof timeout_network_distinct.
  destruct (is_timeout e); split_and!; auto; split; intros; congruence.
Qed.

(** C21: a request that could not be sent gives the underlying error's
    message, or the generic fallback when that message is empty. *)
Theorem interceptor_not_sent e :
  response_of e = None -> request_sent e = false ->
  message (globalErrorResponseInterceptor e) =
    (if String.eqb (err_message e) "" then unknown_message else err_message e) /\
  httpStatus (cause (globalErrorResponseInterceptor e)) = None.
Proof.
  intros Hr Hs. rewrite (interceptor_no_response_eq e Hr), Hs. simpl.
  by rewrite js_or_str_fallback.
Qed.

(** C22: every normalised error has the same shape: the cause keeps the
    original axios error, the status is present exactly when a response
    was received, the business code is always absent, and [isAxiosError]
    is set. *)
Theorem interceptor_cause_shape e :
  cause (globalErrorResponseInterceptor e) =
  mkCause e (option_map status (response_of e)) None true.
Proof.
  destruct (response_of e) as [r|] eqn:Hr.
  - by rewrite (interceptor_response e r Hr).
  - by rewrite (interceptor_no_response_eq e Hr).
Qed.

(** C23: through the REST instance, a server slower than the 15-second
    timeout yields the timeout message and an unreachable server the
    connectivity message, and the two messages differ. *)
Theorem rest_request_timeout_vs_network base lat r :
  (15000 < lat)%Z ->
  (exists err, rest_request base (Answers lat r) = Err err /\
               message err = timeout_message /\ httpStatus (cause err) = None) /\
  (exists err, rest_request base Unreachable = Err err /\
               message err = network_message /\ httpStatus (cause err) = None) /\
  timeout_message <> network_message.
Proof.
  intros Hlat. unfold rest_request, dispatch, restAxiosInstance. simpl.
  destruct (Z.ltb_spec (1000 * 15) lat); [|lia]. simpl.
  split; [eexists; repeat split|]. split; [eexists; repeat split|]. discriminate.
Qed.

(** C24: the normalised message is never empty, unless the server's body
    carries an array as [message]. *)
Theorem interceptor_message_nonempty e :
  (forall r items, response_of e = Some r -> get_prop (data r) "message" <> Some (JArr items)) ->
  message (globalErrorResponseInterceptor e) <> "".
Proof.
  intros Harr. destruct (response_of e) as [r|] eqn:Hr.
  - rewrite (interceptor_response e r Hr). simpl.
    destruct (get_prop (data r) "message") as [v|] eqn:Hv; [|apply status_failed_message_nonempty].
    unfold js_or. destruct (truthy v) eqn:Ht; [|apply status_failed_message_nonempty].
    apply to_string_truthy_nonempty; [done|]. intros items ->. by apply (Harr r items).
  - rewrite (interceptor_no_response_eq e Hr). simpl.
    destruct (request_sent e); [destruct (is_timeout e); discriminate|].
    rewrite js_or_str_fallback. destruct (String.eqb_spec (err_message e) ""); [discriminate|done].
Qed.

(** The counterexample behind the exception in C23: a 400 response whose
    body is [{ message: [] }] is normalised to an error with an empty
    message. *)
Example interceptor_empty_message_array :
  message (globalErrorResponseInterceptor
             (mkAxiosError (Some (mkResponse 400 (JObj [("message", JArr [])]))) true
                           (Some "ERR_BAD_REQUEST") "Request failed with status code 400")) = "".
Proof. reflexivity. Qed.

(** ** Witnesses *)

Definition not_found_error : axios_error :=
  mkAxiosError (Some (mkResponse 404 (JObj [("message", JStr "not found")]))) true
               (Some "ERR_BAD_REQUEST") "Request failed with status code 404".

Definition html_500_error : axios_error :=
  mkAxiosError (Some (mkResponse 500 (JStr "<html>Internal Server Error</html>"))) true
               (Some "ERR_BAD_RESPONSE") "Request failed with status code 500".

Lemma interceptor_server_message_witness :
  message (globalErrorResponseInterceptor not_found_error) = "not found" /\
  httpStatus (cause (globalErrorResponseInterceptor not_found_error)) = Some 404%Z.
Proof.
  exact (interceptor_server_message not_found_error (mkResponse 404 (JObj [("message", JStr "not found")]))
           "not found" eq_refl eq_refl ltac:(discriminate)).
Defined.

Lemma interceptor_server_fallback_witness :
  message (globalErrorResponseInterceptor html_500_error) = "请求失败，状态码: 500".
Proof.
  destruct (interceptor_server_fallback html_500_error
              (mkResponse 500 (JStr "<html>Internal Server Error</html>")) eq_refl) as [Hm _].
  - intros v Hv. simpl in Hv. injection Hv as <-. reflexivity.
  - rewrite Hm. reflexivity.
Defined.

Lemma interceptor_no_response_witness :
  message (globalErrorResponseInterceptor
             (mkAxiosError None true None "timeout of 15000ms exceeded"))
  = timeout_message.
Proof.
  apply (proj1 (interceptor_no_response
                  (mkAxiosError None true None "timeout of 15000ms exceeded")
                  eq_refl eq_refl)).
  right. by exists "", " of 15000ms exceeded".
Defined.

Lemma interceptor_not_sent_witness :
  message (globalErrorResponseInterceptor (mkAxiosError None false None "Invalid URL"))
  = "Invalid URL".
Proof.
  exact (proj1 (interceptor_not_sent (mkAxiosError None false None "Invalid URL") eq_refl eq_refl)).
Defined.

Lemma rest_request_timeout_vs_network_witness : timeout_message <> network_message.
Proof.
  exact (proj2 (proj2 (rest_request_timeout_vs_network "/api" 20000
                         (mkResponse 200 JNull) ltac:(lia)))).
Defined.

Lemma interceptor_message_nonempty_witness :
  message (globalErrorResponseInterceptor html_500_error) <> "".
Proof.
  apply interceptor_message_nonempty. intros r items Hr. injection Hr as <-. discriminate.
Defined.

End Http.
