(* ===== verification/Dto.v ===== *)
(** * Dto: the payload and response types of [api/jobflow/type.ts] and
      [api/snapshot/type.ts]

    Each interface is a record; enumerations of string literals are
    inductive types.  TypeScript erases the interfaces: nothing in the
    sources checks a value against them, so they are types of the model
    only.  The wrappers of [Api] send request payloads with axios, which
    posts [JSON.stringify] of the value; [<T>_json] is that JSON value, the
    object with the interface's properties in declaration order.  Response
    types ([FlowResponse], [FlowDefinitionEntity], [Node]) are never
    serialised by the sources; the wrappers return response bodies as
    untyped JSON values.

    [fieldSchemaMap] is declared as a [Map], but what a caller stores there
    is not checked: a [Map] built as declared, or the plain object that
    [getFieldSchema] returned (a JSON body never contains a [Map]).
    [schema_map] keeps both; [JSON.stringify] writes a [Map] as [{}] and a
    plain object with its entries. *)

From Stdlib Require Import ZArith Lia String.
From stdpp Require Import base list.
From S2P Require Import Prelude JsValue.

Module Dto.
Import JsValue.
Local Open Scope string_scope.

(** ** The interfaces, and the JSON value of each *)

Inductive ExecStatus := RUNNING | SUCCESS | FAILED | PENDING.

Definition ExecStatus_json (s : ExecStatus) : jsval :=
  JStr (match s with RUNNING => "RUNNING" | SUCCESS => "SUCCESS"
                | FAILED => "FAILED" | PENDING => "PENDING" end).

Record FlowInfoDTO := mkFlowInfo {
  flowDefinitionId : string;
  flowName : string;
  cronConfig : string;
  lastExecutionExecStatus : ExecStatus;
  lastExecutionDuration : string;
  enabled : bool   (* 1 | 0 *)
}.

Definition FlowInfoDTO_json (d : FlowInfoDTO) : jsval :=
  JObj [("flowDefinitionId", JStr (flowDefinitionId d)); ("flowName", JStr (flowName d));
        ("cronConfig", JStr (cronConfig d));
        ("lastExecutionExecStatus", ExecStatus_json (lastExecutionExecStatus d));
        ("lastExecutionDuration", JStr (lastExecutionDuration d));
        ("enabled", JNum (if enabled d then 1 else 0))].

Inductive SourceType := MANUAL | NODE_OUTPUT.

Record FieldSchema := mkFieldSchema {
  sourceType : SourceType;
  typeReference : string;
  description : string;
  group : string;
  value : jsval
}.

Definition SourceType_json (s : SourceType) : jsval :=
  JStr (match s with MANUAL => "MANUAL" | NODE_OUTPUT => "NODE_OUTPUT" end).

Definition FieldSchema_json (f : FieldSchema) : jsval :=
  JObj [("sourceType", SourceType_json (sourceType f)); ("typeReference", JStr (typeReference f));
        ("description", JStr (description f)); ("group", JStr (group f));
        ("value", value f)].

(** The run-time value of [fieldSchemaMap: Map<string, FieldSchema>]. *)
Inductive schema_map :=
  | MapValue (entries : list (string * FieldSchema))       (* a [Map] *)
  | ObjectValue (entries : list (string * FieldSchema)).   (* a parsed JSON object *)

Record FieldSchemaDTO := mkFieldSchemaDTO {
  nodeId : string;
  nodeName : string;
  fieldSchemaMap : schema_map
}.

(** [JSON.stringify] of the map: a [Map] has no own enumerable properties
    and is written as [{}]; a plain object is written entry by entry. *)
Definition schema_map_json (m : schema_map) : jsval :=
  match m with
  | MapValue _ => JObj []
  | ObjectValue es => JObj (map (fun '(k, f) => (k, FieldSchema_json f)) es)
  end.

Definition FieldSchemaDTO_json (d : FieldSchemaDTO) : jsval :=
  JObj [("nodeId", JStr (nodeId d)); ("nodeName", JStr (nodeName d));
        ("fieldSchemaMap", schema_map_json (fieldSchemaMap d))].

Record FlowNode := mkFlowNode { fn_nodeId : string; name : string; nextNodeIds : list string }.

Definition FlowNode_json (n : FlowNode) : jsval :=
  JObj [("nodeId", JStr (fn_nodeId n)); ("name", JStr (name n));
        ("nextNodeIds", JArr (map JStr (nextNodeIds n)))].

Record CreateFlowRequest := mkCreateFlow {
  cf_flowName : string;
  cron : string;
  cf_description : string;
  nodeList : list FlowNode;
  fieldSchemaDTOList : list FieldSchemaDTO
}.

Definition CreateFlowRequest_json (c : CreateFlowRequest) : jsval :=
  JObj [("flowName", JStr (cf_flowName c)); ("cron", JStr (cron c));
        ("description", JStr (cf_description c));
        ("nodeList", JArr (map FlowNode_json (nodeList c)));
        ("fieldSchemaDTOList", JArr (map FieldSchemaDTO_json (fieldSchemaDTOList c)))].

Record SnapshotMetaEntity := mkSnapshotMeta {
  snapshotMetaId : string; sourceDirectory : string; backupRepository : string;
  createdAt : string; snapshotId : string; fileCount : string; dirCount : string;
  snapshotSizeBytes : string; hostname : string; username : string
}.

Definition SnapshotMetaEntity_json (s : SnapshotMetaEntity) : jsval :=
  JObj [("snapshotMetaId", JStr (snapshotMetaId s)); ("sourceDirectory", JStr (sourceDirectory s));
        ("backupRepository", JStr (backupRepository s)); ("createdAt", JStr (createdAt s));
        ("snapshotId", JStr (snapshotId s)); ("fileCount", JStr (fileCount s));
        ("dirCount", JStr (dirCount s)); ("snapshotSizeBytes", JStr (snapshotSizeBytes s));
        ("hostname", JStr (hostname s)); ("username", JStr (username s))].

Inductive ItemType := ItemFile | ItemDir.

Record SnapshotItemDTO := mkSnapshotItem {
  item_name : string; item_type : ItemType; path : string; size : Z; ctime : string
}.

Definition ItemType_json (t : ItemType) : jsval :=
  JStr (match t with ItemFile => "file" | ItemDir => "dir" end).

Definition SnapshotItemDTO_json (i : SnapshotItemDTO) : jsval :=
  JObj [("name", JStr (item_name i)); ("type", ItemType_json (item_type i));
        ("path", JStr (path i)); ("size", JNum (size i)); ("ctime", JStr (ctime i))].

Record RestoreRequest := mkRestore {
  snapshotMetaEntity : SnapshotMetaEntity;
  snapshotItemDTOList : list SnapshotItemDTO
}.

Definition RestoreRequest_json (r : RestoreRequest) : jsval :=
  JObj [("snapshotMetaEntity", SnapshotMetaEntity_json (snapshotMetaEntity r));
        ("snapshotItemDTOList", JArr (map SnapshotItemDTO_json (snapshotItemDTOList r)))].

(** [FlowResponse<T>]: the envelope of every jobflow body. *)
Record FlowResponse (T : Type) := mkFlowResponse {
  fr_statusCode : Z; fr_message : string; fr_data : T; fr_timestamp : string
}.
Arguments mkFlowResponse {T}.
Arguments fr_statusCode {T}. Arguments fr_message {T}.
Arguments fr_data {T}. Arguments fr_timestamp {T}.

(** [FlowDefinitionEntity.definition]: [{name: string, nodes: FlowNode[]}] *)
Record FlowDefinition := mkFlowDefinition { def_name : string; nodes : list FlowNode }.

Record FlowDefinitionEntity := mkFlowDefinitionEntity {
  fd_flowDefinitionId : string; fd_name : string; fd_description : string;
  definition : FlowDefinition; fd_cronConfig : string; fd_enabled : Z
}.

Record Node := mkNode {
  node_name : string; node_description : string; node_group : string;
  inputParams : list string; outputParams : list string
}.

(** The view-side types: [FlowFormData] (the three steps of the flow
    editor's form, typed by indexed access into [CreateFlowRequest]) and
    [GroupData] (snapshots grouped by source directory).  They never cross
    the wire, so they have no codec. *)
Record FlowFormStep3 := mkFlowFormStep3 { s3_flowName : string; s3_cron : string; s3_description : string }.

(** [{ nodeList: CreateFlowRequest["nodeList"] }] *)
Record FlowFormStep1 := mkFlowFormStep1 { s1_nodeList : list FlowNode }.
(** [{ fieldSchemaDTOList: CreateFlowRequest["fieldSchemaDTOList"] }] *)
Record FlowFormStep2 := mkFlowFormStep2 { s2_fieldSchemaDTOList : list FieldSchemaDTO }.

Record FlowFormData := mkFlowFormData {
  step1 : FlowFormStep1; step2 : FlowFormStep2; step3 : FlowFormStep3
}.

Record GroupData := mkGroupData {
  gd_sourceDirectory : string; snapshotCount : Z; totalFileCount : Z;
  totalDirCount : Z; totalSize : Z; snapshots : list SnapshotMetaEntity
}.

End Dto.
