(* ===== verification/Api.v ===== *)
(** * Api: the REST wrappers of [src/src/api] and their payload types

    Each wrapper of [api/jobflow/api.ts] and [api/snapshot/api.ts] sends one
    request on [restAxiosInstance] and returns [response.data.data] (or
    nothing); [getDownloadResult] uses [blobAxiosInstance] and returns the
    whole response.  TypeScript's types are erased: the value returned is
    whatever the server's body holds under [data], and reading it throws a
    [TypeError] when the body is [null].

    The backend is a parameter ([backend]: what the server does with each
    request); failures are [api_error]s: the interceptor's normalised error,
    the [TypeError] of [response.data.data], or, on the blob instance, the
    raw [AxiosError].

    The payload types and their JSON values are in [Dto].  The declared
    result types are erased: [rest_data_outcome] shows the value returned
    is the body's [data] property, whatever it holds. *)

From Stdlib Require Import ZArith Lia String.
From stdpp Require Import base list.
From S2P Require Import Prelude JsValue Http Dto.

Module Api.
Import JsValue Http Dto.
Local Open Scope string_scope.

(** ** Requests and errors *)

Inductive method := GET | POST.

Record request := mkRequest {
  req_method : method;
  url : string;
  body : jsval;
  params : list (string * jsval)
}.

Inductive api_error :=
  | Normalized (e : enhanced_error)   (* rejected by the interceptor *)
  | TypeError                         (* [response.data.data] on a null body *)
  | RawAxiosError (e : axios_error).  (* the blob instance's rejection *)

Definition flowEditorUrl : string := "/flow-editor".
Definition flowInfoUrl : string := "/flow-info".
Definition resticUrl : string := "/restic".

Section Wrappers.
(** The base URL and what the backend does with each request. *)
Variable base : string.
Variable backend : request -> server.

Definition rest (m : method) (u : string) (b : jsval) (ps : list (string * jsval))
  : result response api_error :=
  match rest_request base (backend (mkRequest m u b ps)) with
  | Ok r => Ok r
  | Err e => Err (Normalized e)
  end.

(** [response.data.data] *)
Definition body_data (r : result response api_error) : result jsval api_error :=
  match r with
  | Ok resp => match get_prop (data resp) "data" with
               | Some v => Ok v
               | None => Err TypeError
               end
  | Err e => Err e
  end.

(** [await ...; ] with the result dropped *)
Definition void (r : result response api_error) : result unit api_error :=
  match r with Ok _ => Ok tt | Err e => Err e end.

Definition validNodes (payload : list FlowNode) : result unit api_error :=
  void (rest POST (flowEditorUrl ++ "/valid-nodes") (JArr (map FlowNode_json payload)) []).

Definition getFieldSchema (payload : list FlowNode) : result jsval api_error :=
  body_data (rest POST (flowEditorUrl ++ "/get-field-schema")
               (JArr (map FlowNode_json payload)) []).

Definition validFieldSchema (payload : list FieldSchemaDTO) : result unit api_error :=
  void (rest POST (flowEditorUrl ++ "/valid-field-schema")
          (JArr (map FieldSchemaDTO_json payload)) []).

Definition createFlow (payload : CreateFlowRequest) : result jsval api_error :=
  body_data (rest POST (flowEditorUrl ++ "/create-flow") (CreateFlowRequest_json payload) []).

Definition getAllNodes : result jsval api_error :=
  body_data (rest GET (flowEditorUrl ++ "/get-all-nodes") JUndefined []).

Definition getAllFlowInfo : result jsval api_error :=
  body_data (rest GET (flowInfoUrl ++ "/get-all-flow-info") JUndefined []).

Definition enableFlow (payload : FlowInfoDTO) : result unit api_error :=
  void (rest POST (flowInfoUrl ++ "/enable-flow") (FlowInfoDTO_json payload) []).

Definition disableFlow (payload : FlowInfoDTO) : result unit api_error :=
  void (rest POST (flowInfoUrl ++ "/disable-flow") (FlowInfoDTO_json payload) []).

Definition deleteFlow (payload : FlowInfoDTO) : result unit api_error :=
  void (rest POST (flowInfoUrl ++ "/delete-flow") (FlowInfoDTO_json payload) []).

Definition getAllSnapshots : result jsval api_error :=
  body_data (rest GET (resticUrl ++ "/get-all-snapshots") JUndefined []).

Definition getSnapshotItems (s : SnapshotMetaEntity) (filter : string)
  : result jsval api_error :=
  body_data (rest POST (resticUrl ++ "/get-snapshot-items") (SnapshotMetaEntity_json s)
               [("filter", JStr filter)]).

Definition submitDownloadJob (payload : RestoreRequest) : result jsval api_error :=
  body_data (rest POST (resticUrl ++ "/submit-download-job") (RestoreRequest_json payload) []).

Definition getDownloadResult (jobId : string) (isPreview : bool)
  : result response api_error :=
  match blob_request base
          (backend (mkRequest POST (resticUrl ++ "/get-download-result") JNull
                      [("jobId", JStr jobId); ("isPreview", JBool isPreview)])) with
  | Ok r => Ok r
  | Err e => Err (RawAxiosError e)
  end.
End Wrappers.

(** ** Lemmas *)

Lemma rest_Ok base backend m u b ps resp :
  rest base backend m u b ps = Ok resp <->
  exists lat, backend (mkRequest m u b ps) = Answers lat resp /\ (lat <= 15000)%Z /\
              (200 <= status resp < 300)%Z.
Proof.
  unfold rest, rest_request, dispatch, restAxiosInstance. simpl.
  destruct (backend _) as [lat r| |msg]; simpl; split;
    try (intros [? [? _]]; discriminate); try discriminate.
  - destruct (Z.ltb_spec (1000 * 15) lat); simpl; [discriminate|].
    destruct (Z.leb_spec 200 (status r)), (Z.ltb_spec (status r) 300); simpl;
      intros; simplify_eq; try discriminate. exists lat. split; [done|lia].
  - intros [lat' [[= <- <-] [Hl Hs]]].
    destruct (Z.ltb_spec (1000 * 15) lat); [lia|].
    destruct (Z.leb_spec 200 (status r)), (Z.ltb_spec (status r) 300); simpl; try lia.
    done.
Qed.

(** ** Claims *)

(** C25: every wrapper that returns [response.data.data] through the REST
    instance succeeds exactly with the [data] property of a 2xx body received
    within the timeout, fails with a raw [TypeError] exactly when that body is
    [null] (or absent), and otherwise fails only with the interceptor's
    normalised error, never with a raw axios error. *)
Theorem rest_data_outcome base backend m u b ps :
  let res := body_data (rest base backend m u b ps) in
  (forall v, res = Ok v <->
     exists lat resp, backend (mkRequest m u b ps) = Answers lat resp /\ (lat <= 15000)%Z /\
       (200 <= status resp < 300)%Z /\ get_prop (data resp) "data" = Some v) /\
  (res = Err TypeError <->
     exists lat resp, backend (mkRequest m u b ps) = Answers lat resp /\ (lat <= 15000)%Z /\
       (200 <= status resp < 300)%Z /\ (data resp = JNull \/ data resp = JUndefined)) /\
  (forall e, res <> Err (RawAxiosError e)).
Proof.
  cbv zeta. unfold body_data.
  destruct (rest base backend m u b ps) as [resp|err] eqn:Hr.
  - apply rest_Ok in Hr as [lat (Hb & Hl & Hs)].
    split; [|split].
    + intros v. split.
      * destruct (get_prop _ _) eqn:Hg; intros [= <-]. by exists lat, resp.
      * intros (lat' & resp' & Hb' & _ & _ & Hg). rewrite Hb in Hb'. simplify_eq. by rewrite Hg.
    + split.
      * destruct (get_prop (data resp) "data") eqn:Hg; [discriminate|]. intros _.
        exists lat, resp. split; [done|split; [done|split; [done|]]].
        destruct (data resp); simpl in Hg; try discriminate; auto.
      * intros (lat' & resp' & Hb' & _ & _ & Hn). rewrite Hb in Hb'. simplify_eq.
        by destruct Hn as [-> | ->].
    + intros e. by destruct (get_prop _ _).
  - assert (Hn : forall lat resp, backend (mkRequest m u b ps) = Answers lat resp ->
                 (lat <= 15000)%Z -> (200 <= status resp < 300)%Z -> False).
    { intros lat resp Hb Hl Hs.
      assert (rest base backend m u b ps = Ok resp) by (apply rest_Ok; eauto). congruence. }
    unfold rest in Hr. destruct (rest_request _ _); simplify_eq.
    split; [|split].
    + intros v. split; [discriminate|]. intros (lat & resp & Hb & Hl & Hs & _). by destruct (Hn lat resp).
    + split; [discriminate|]. intros (lat & resp & Hb & Hl & Hs & _). by destruct (Hn lat resp).
    + discriminate.
Qed.

(** C26: [getDownloadResult] goes through the blob instance, which has no
    interceptor: a non-2xx answer reaches the caller as the raw axios error,
    whose message is axios's "Request failed with status code <status>",
    not the server's message nor the normalised one. *)
Theorem getDownloadResult_raw_error base backend jobId isPreview lat resp :
  backend (mkRequest POST (resticUrl ++ "/get-download-result") JNull
             [("jobId", JStr jobId); ("isPreview", JBool isPreview)]) = Answers lat resp ->
  (lat <= 15000)%Z -> ~ (200 <= status resp < 300)%Z ->
  exists e, getDownloadResult base backend jobId isPreview = Err (RawAxiosError e) /\
    response_of e = Some resp /\
    err_message e = ("Request failed with status code " ++ decimal (status resp))%string.
Proof.
  intros Hb Hl Hs. unfold getDownloadResult, blob_request, dispatch, blobAxiosInstance.
  rewrite Hb. simpl. destruct (Z.ltb_spec (1000 * 15) lat); [lia|]. simpl.
  destruct (Z.leb_spec 200 (status resp)), (Z.ltb_spec (status resp) 300); simpl;
    try lia; by eexists.
Qed.

(** ** Witnesses *)

Definition download_404 (req : request) : server :=
  Answers 120 (mkResponse 404 (JObj [("message", JStr "job not found")])).

Lemma getDownloadResult_raw_error_witness :
  exists e, getDownloadResult "/api" download_404 "job-1" false = Err (RawAxiosError e) /\
    response_of e = Some (mkResponse 404 (JObj [("message", JStr "job not found")])) /\
    err_message e = ("Request failed with status code " ++ decimal 404)%string.
Proof.
  apply (getDownloadResult_raw_error "/api" download_404 "job-1" false 120
           (mkResponse 404 (JObj [("message", JStr "job not found")]))); [reflexivity|lia|].
  simpl. lia.
Defined.

End Api.
