(* ===== verification/Router.v ===== *)
(** * Router: the route table of [src/src/router/index.ts]

    The table has four static routes: "/" redirects to "/dashboard", and
    "/dashboard", "/job-flow" and "/restic" load the views [Dashboard.vue],
    [JobFlow.vue] and [Restic.vue].  [resolve] is vue-router's default
    matching for static paths: the first route whose path equals the
    location up to ASCII case and one trailing slash (the table's paths
    are distinct in that sense, so the ranking of vue-router picks the
    same route), following redirects (at most one per route of the table,
    which bounds the chain).  The table is a constant, so the file states
    no theorem about it.  The views themselves are not in the sources. *)

From Stdlib Require Import String Ascii.
From stdpp Require Import base list strings.
From S2P Require Import Prelude.

Module Router.
Local Open Scope string_scope.

Record RouteMeta := mkMeta { title : string; icon : option string }.

Record Route := mkRoute {
  path : string;
  name : option string;
  redirect : option string;
  component : option string;   (* the lazily imported view *)
  meta : RouteMeta
}.

Definition routes : list Route := [
  mkRoute "/" None (Some "/dashboard") None (mkMeta "首页" None);
  mkRoute "/dashboard" (Some "Dashboard") None (Some "../views/Dashboard.vue")
          (mkMeta "仪表板" (Some "dashboard"));
  mkRoute "/job-flow" (Some "JobFlow") None (Some "../views/JobFlow.vue")
          (mkMeta "任务流管理" (Some "jobFlow"));
  mkRoute "/restic" (Some "Restic") None (Some "../views/Restic.vue")
          (mkMeta "备份管理" (Some "restic"))
].

(** [toLowerCase] on the ASCII range. *)
Definition lower_ascii (c : ascii) : ascii :=
  let n := nat_of_ascii c in
  if Nat.leb 65 n && Nat.leb n 90 then ascii_of_nat (n + 32) else c.

Fixpoint lower (s : string) : string :=
  match s with
  | EmptyString => EmptyString
  | String c r => String (lower_ascii c) (lower r)
  end.

(** The path without its trailing slash: the root path ["/"] is the empty
    sequence of segments. *)
Fixpoint drop_trailing_slash (s : string) : string :=
  match s with
  | EmptyString => EmptyString
  | String c EmptyString => if Ascii.eqb c "/" then EmptyString else s
  | String c r => String c (drop_trailing_slash r)
  end.

(** vue-router's default matching of a static route path ([sensitive:
    false], [strict: false]): the regular expression [^<path>/?$] with the
    [i] flag, where [<path>] is the route path without a trailing slash. *)
Definition path_matches (route_path p : string) : bool :=
  let base := lower (drop_trailing_slash route_path) in
  String.eqb (lower p) base || String.eqb (lower p) (base ++ "/").

Definition find_route (p : string) (rs : list Route) : option Route :=
  List.find (fun r => path_matches (path r) p) rs.

(** Matching with redirects, at most [fuel] of them. *)
Fixpoint resolve_with (fuel : nat) (p : string) : option Route :=
  match find_route p routes with
  | Some r =>
      match redirect r with
      | Some target => match fuel with O => None | S n => resolve_with n target end
      | None => Some r
      end
  | None => None
  end.

Definition resolve (p : string) : option Route := resolve_with (length routes) p.

End Router.
