(* ===== verification/Main.v ===== *)
(** * Main: the application bootstrap of [src/src/main.ts]

    [main.ts] creates the Vue application, installs Pinia, the router and
    Naive UI with [app.use], and mounts the root component on [#app].
    Vue's own [createApp], [use] and [mount] are library code.  They are
    modelled here from Vue's documentation as an application record with
    the plugins installed so far and the mount target:
    - a plugin applied a second time is skipped with a warning (Vue keeps
      a set of installed plugins);
    - a second [mount] is refused with a warning;
    - every call is recorded in [log].
    [main] is a constant program with no input, so the file states no
    theorem about it: any statement would be a computation on that one
    value.  Read off [main], Pinia is installed before the mount, which is
    what [useGlobalTimerStore] (called by components, after the mount)
    relies on. *)

From Stdlib Require Import String.
From stdpp Require Import base list strings.
From S2P Require Import Prelude.

Module Main.
Local Open Scope string_scope.

(** The plugins [main.ts] imports. *)
Inductive plugin := Pinia | VueRouter | NaiveUI.

#[export] Instance plugin_eq_dec : EqDecision plugin.
Proof. solve_decision. Defined.

Inductive app_event := Used (p : plugin) | Mounted (selector : string) | Warned (msg : string).

Record App := mkApp {
  root : string;
  installed : list plugin;
  mounted_on : option string;
  log : list app_event
}.

Definition createApp (root : string) : App := mkApp root [] None [].

Definition use (p : plugin) (a : App) : App :=
  if bool_decide (p ∈ installed a)
  then mkApp (root a) (installed a) (mounted_on a)
             (log a ++ [Warned "Plugin has already been applied to target app."])
  else mkApp (root a) (installed a ++ [p]) (mounted_on a) (log a ++ [Used p]).

Definition mount (selector : string) (a : App) : App :=
  match mounted_on a with
  | Some _ => mkApp (root a) (installed a) (mounted_on a)
                    (log a ++ [Warned "App has already been mounted."])
  | None => mkApp (root a) (installed a) (Some selector) (log a ++ [Mounted selector])
  end.

(** [main.ts], statement by statement. *)
Definition main : App :=
  let app := createApp "App" in
  let app := use Pinia app in
  let app := use VueRouter app in
  let app := use NaiveUI app in
  mount "#app" app.

End Main.
